(** * gala: the firmware patch engine

    A shallow embedding of the patch application engine of gala
    ([patches.py] and [patches/dmg_patches.py]) together with the
    properties of the engine that its specification states.

    Python values are modelled as follows.
    - [int] and [VirtualMemoryPointer] (an [int] subclass) are [Z]:
      Python integers do not wrap.
    - [bytes] and [bytearray] are [list byte]; a [bytearray] that is
      mutated in place is threaded through the calls, and is still
      returned when the call raises, since the caller keeps the object.
    - [str] and [Path] are [string].
    - A raised exception is a value of [exn]; every [raise] site of the
      modelled code has its own message constructor.
    - The disassembler (capstone), the assembler ([assemble.assemble]) and
      the Mach-O parser (strongarm) are collaborators of the engine and are
      taken abstractly, as the fields of the class [Toolchain]; each of
      them may raise. *)

From Stdlib Require Import String Ascii Bool ZArith List Lia.
From Stdlib Require Import Strings.Byte DecimalString.
Import ListNotations.

Set Warnings "-register-all".

Local Open Scope string_scope.
Local Open Scope list_scope.
Local Open Scope Z_scope.

(* ===================================================================== *)
(** ** Python sequences and exceptions *)
(* ===================================================================== *)

Module Py.

Definition bytearray := list byte.
Definition Path := string.

(** [len(l)] *)
Definition len {A} (l : list A) : Z := Z.of_nat (length l).

(** The index adjustment of a slice bound against a sequence of length
    [n] ([PySlice_AdjustIndices] with step 1): a negative bound counts
    from the end, and every bound is clamped to [0..n]. *)
Definition adjust_index (i n : Z) : Z :=
  if i <? 0 then Z.max 0 (i + n) else Z.min i n.

(** [l[start:stop]] *)
Definition getslice {A} (l : list A) (start stop : Z) : list A :=
  let s := adjust_index start (len l) in
  let e := adjust_index stop (len l) in
  firstn (Z.to_nat (e - s)) (skipn (Z.to_nat s) l).

(** [l[start:stop] = v] on a [bytearray]: the (possibly empty) slice is
    replaced by [v], whatever the length of [v]; the sequence grows or
    shrinks accordingly. *)
Definition setslice {A} (l : list A) (start stop : Z) (v : list A) : list A :=
  let s := adjust_index start (len l) in
  let e := Z.max s (adjust_index stop (len l)) in
  firstn (Z.to_nat s) l ++ v ++ skipn (Z.to_nat e) l.

(** [sum(l)] *)
Definition sum (l : list Z) : Z := fold_left Z.add l 0.

(** The messages of the [ValueError]s raised by [patches.py], one
    constructor per [raise] statement. *)
Inductive message :=
| ExpectedToFindInstructions (expected found : nat)
    (* "Expected to find {} instructions, but found {}" *)
| ExpectedToDisassemble (expected found : string)
    (* "Expected to disassemble {}, but found {}" *)
| ExpectedExactlyOneInstruction (got : nat)
    (* "Expected to disassemble exactly one instruction, but got {}" *)
| ExpectedToAssemble (expected assembled : string)
    (* "Expected to assemble {}, but assembled {}" *)
| ExpectedPatchOfBytes (expected got : Z)
    (* "Expected a patch of {} bytes, but patch was {} bytes!" *)
| InvalidOffset (offset : Z).
    (* "Invalid offset {}" *)

(** Exceptions raised by the libraries and tools the engine calls. *)
Inductive library_exn :=
| ArchitectureNotSupportedError
| CommandFailed (argv : list string)   (* a failing [run_and_check] *)
| OtherError (what : string).          (* any other exception *)

(** Exceptions that leave the engine: those of its collaborators, which
    it lets through, and the [ValueError]s it raises itself. *)
Inductive exn :=
| LibraryError (e : library_exn)
| ValueError (m : message).

(** The outcome of a call to a procedure returning [None]. *)
Inductive outcome :=
| Returned
| Raised (e : exn).

(** A computation that may raise. *)
Definition result (A : Type) := (exn + A)%type.
Definition library_result (A : Type) := (library_exn + A)%type.

Definition ret {E A} (a : A) : E + A := inr a.
Definition raise {E A} (e : E) : E + A := inl e.
Definition bind {E A B} (r : E + A) (k : A -> E + B) : E + B :=
  match r with
  | inl e => inl e
  | inr a => k a
  end.

(** An exception of a collaborator passing through the engine. *)
Definition propagate {A} (r : library_result A) : result A :=
  match r with
  | inl e => inl (LibraryError e)
  | inr a => inr a
  end.

End Py.

Import Py.

Declare Scope py_scope.
Delimit Scope py_scope with py.
Notation "x <- c ;; k" := (bind c (fun x => k))
  (at level 61, c at next level, right associativity) : py_scope.

(** The names the specification gives to the failures of the engine. *)
Definition is_VerificationMismatch (e : exn) : bool :=
  match e with
  | ValueError (ExpectedToFindInstructions _ _) => true
  | ValueError (ExpectedToDisassemble _ _) => true
  | _ => false
  end.

Definition is_AssemblyMismatch (e : exn) : bool :=
  match e with
  | ValueError (ExpectedExactlyOneInstruction _) => true
  | ValueError (ExpectedToAssemble _ _) => true
  | _ => false
  end.

Definition is_LengthMismatch (e : exn) : bool :=
  match e with
  | ValueError (ExpectedPatchOfBytes _ _) => true
  | _ => false
  end.

Definition is_OutOfBounds (e : exn) : bool :=
  match e with
  | ValueError (InvalidOffset _) => true
  | _ => false
  end.

(* ===================================================================== *)
(** ** The collaborators *)
(* ===================================================================== *)

(** An instruction as the disassembler reports it ([capstone.CsInsn]). *)
Record CsInsn := {
  mnemonic : string;
  op_str : string
}.

(** [assemble.Instr]: only [format.typical_size] and [value] are read by
    the engine. *)
Record InstrFormat := {
  typical_size : Z
}.

Record Instr := {
  format : InstrFormat;
  value : string
}.

(** [strongarm.macho.MachoBinary] and [MachoParser], as far as the engine
    calls them. *)
Record MachoBinary := {
  file_offset_for_virtual_address : Z -> library_result Z;
  get_virtual_base : Z
}.

Record MachoParserObj := {
  is_magic_supported : bool;
  get_armv7_slice : library_result MachoBinary
}.

Class Toolchain := {
  (** [list(Cs(CS_ARCH_ARM, CS_MODE_THUMB).disasm(code, address))]; the
      binding raises on some inputs, an empty [bytearray] among them *)
  cs_disasm : bytearray -> Z -> library_result (list CsInsn);
  (** [assemble(address, instr)] *)
  assemble : Z -> Instr -> library_result bytearray;
  (** [MachoParser(path)] *)
  MachoParser : Path -> library_result MachoParserObj
}.

(** The canonical text of an instruction: the mnemonic alone when there
    are no operands, and the mnemonic, a space and the operands otherwise.
    This is the text the replacement check of [InstructionPatch.apply]
    builds (patches.py, lines 126-129). *)
Definition canonical_text (i : CsInsn) : string :=
  if String.eqb (op_str i) EmptyString then mnemonic i
  else (mnemonic i ++ " " ++ op_str i)%string.

(* ===================================================================== *)
(** ** patches.py *)
(* ===================================================================== *)

Module patches.

(** [class Patch(ABC)] and the subclasses that patch the byte buffer in
    memory.  ([MachoBlobPatch] and [RamdiskBinaryPatch] rewrite files
    through external tools; the loop of [PatchSet], [for_each_patch]
    below, is written for members of any class.) *)
Inductive Patch :=
| InstructionPatch (function_name : string) (address : Z)
    (orig_instructions patched_instructions : list Instr)
    (expected_length : option Z)
| BlobPatch (address : Z) (new_content : bytearray)
| PatchSet (name : string) (patches : list Patch).

(** One call of a member's [apply]: the receiver and the arguments, the
    buffer in the state in which the callee finds it. *)
Record Call (P : Type) := {
  callee : P;
  call_path : Path;
  call_base : Z;
  call_data : bytearray
}.
Arguments callee {P}.
Arguments call_path {P}.
Arguments call_base {P}.
Arguments call_data {P}.

(** The cursors of the replacement loop of [InstructionPatch.apply]. *)
Record Cursor := {
  patched_instr_address : Z;
  patch_file_offset : Z;
  patch_length : Z
}.

(** Truth value of an [int | None] used as a condition. *)
Definition truthy (n : option Z) : bool :=
  match n with
  | None => false
  | Some k => negb (k =? 0)
  end.

Section Engine.
Context `{Toolchain}.

(** The body of the [try] of lines 90-97 (and 156-163). *)
Definition macho_file_offset (decrypted_image_path : Path) (address : Z)
  : library_result Z :=
  (macho_parser <- MachoParser decrypted_image_path ;;
   if is_magic_supported macho_parser then
     binary <- get_armv7_slice macho_parser ;;
     file_offset_for_virtual_address binary address
   else raise ArchitectureNotSupportedError)%py.

(** The whole [try ... except ArchitectureNotSupportedError] statement:
    the handler computes the offset of a raw binary; any other exception
    propagates. *)
Definition try_macho_file_offset (decrypted_image_path : Path)
  (address image_base_address : Z) : library_result Z :=
  match macho_file_offset decrypted_image_path address with
  | inl ArchitectureNotSupportedError => ret (address - image_base_address)
  | r => r
  end.

(** Line 109: the text compared with a declared original instruction. *)
Definition actual_orig_instruction_str (i : CsInsn) : string :=
  (mnemonic i ++ " " ++ op_str i)%string.

(** Lines 108-111. *)
Fixpoint validate_orig_texts (pairs : list (CsInsn * Instr)) : outcome :=
  match pairs with
  | [] => Returned
  | (actual_orig_instruction, expected_orig_instruction) :: rest =>
      let s := actual_orig_instruction_str actual_orig_instruction in
      if negb (String.eqb s (value expected_orig_instruction)) then
        Raised (ValueError
                  (ExpectedToDisassemble (value expected_orig_instruction) s))
      else validate_orig_texts rest
  end.

(** [region_size], line 88. *)
Definition region_size (orig_instructions : list Instr) : Z :=
  sum (map (fun i => typical_size (format i)) orig_instructions).

(** Lines 102-103: the disassembler is not called when no original
    instruction is declared; when it is called and raises, its exception
    leaves [apply]. *)
Definition actual_orig_instructions (address offset : Z)
  (orig_instructions : list Instr) (data : bytearray)
  : library_result (list CsInsn) :=
  let instr_bytes :=
    getslice data offset (offset + region_size orig_instructions) in
  if (length orig_instructions =? 0)%nat then ret []
  else cs_disasm instr_bytes address.

(** Lines 105-111: the comparison of what was disassembled with what is
    declared. *)
Definition compare_orig (actual : list CsInsn)
  (orig_instructions : list Instr) : outcome :=
  if negb (length actual =? length orig_instructions)%nat then
    Raised (ValueError (ExpectedToFindInstructions
                          (length orig_instructions) (length actual)))
  else validate_orig_texts (combine actual orig_instructions).

(** Lines 102-111: the validation of the original instructions. *)
Definition validate_orig (address offset : Z)
  (orig_instructions : list Instr) (data : bytearray) : outcome :=
  match actual_orig_instructions address offset orig_instructions data with
  | inl e => Raised (LibraryError e)
  | inr actual => compare_orig actual orig_instructions
  end.

(** Lines 117-131: assemble one replacement and check that it
    disassembles to what was declared. *)
Definition assemble_checked (patched_instr_address : Z) (patched_instr : Instr)
  : result bytearray :=
  (assembled_bytes <- propagate (assemble patched_instr_address patched_instr) ;;
   disassembled_instrs <-
     propagate (cs_disasm assembled_bytes patched_instr_address) ;;
   match disassembled_instrs with
   | [disassembled_instr] =>
       let assembled_instr_str :=
         if String.eqb (op_str disassembled_instr) EmptyString
         then mnemonic disassembled_instr
         else (mnemonic disassembled_instr ++ " "
               ++ op_str disassembled_instr)%string in
       if negb (String.eqb assembled_instr_str (value patched_instr)) then
         raise (ValueError (ExpectedToAssemble (value patched_instr)
                                               assembled_instr_str))
       else ret assembled_bytes
   | _ =>
       raise (ValueError
                (ExpectedExactlyOneInstruction (length disassembled_instrs)))
   end)%py.

(** Lines 137-139. *)
Definition advance (c : Cursor) (assembled_bytes_len : Z) : Cursor :=
  {| patched_instr_address := patched_instr_address c + assembled_bytes_len;
     patch_file_offset := patch_file_offset c + assembled_bytes_len;
     patch_length := patch_length c + assembled_bytes_len |}.

(** The loop of lines 116-139.  When an iteration raises, the cursors and
    the buffer are those the earlier iterations left. *)
Fixpoint patch_loop (patched_instructions : list Instr) (c : Cursor)
  (data : bytearray) : outcome * Cursor * bytearray :=
  match patched_instructions with
  | [] => (Returned, c, data)
  | patched_instr :: rest =>
      match assemble_checked (patched_instr_address c) patched_instr with
      | inl e => (Raised e, c, data)
      | inr assembled_bytes =>
          let assembled_bytes_len := len assembled_bytes in
          patch_loop rest (advance c assembled_bytes_len)
            (setslice data (patch_file_offset c)
               (patch_file_offset c + assembled_bytes_len) assembled_bytes)
      end
  end.

(** Lines 141-142. *)
Definition check_expected_length (expected_length : option Z)
  (patch_length : Z) : outcome :=
  match expected_length with
  | Some n =>
      if truthy expected_length && negb (patch_length =? n) then
        Raised (ValueError (ExpectedPatchOfBytes n patch_length))
      else Returned
  | None => Returned
  end.

(** [InstructionPatch.apply] *)
Definition InstructionPatch_apply (address : Z)
  (orig_instructions patched_instructions : list Instr)
  (expected_length : option Z)
  (decrypted_image_path : Path) (image_base_address : Z) (data : bytearray)
  : outcome * bytearray :=
  match try_macho_file_offset decrypted_image_path address image_base_address with
  | inl e => (Raised (LibraryError e), data)
  | inr offset =>
      match validate_orig address offset orig_instructions data with
      | Raised e => (Raised e, data)
      | Returned =>
          let start := {| patched_instr_address := address;
                          patch_file_offset := offset;
                          patch_length := 0 |} in
          match patch_loop patched_instructions start data with
          | (Raised e, _, data') => (Raised e, data')
          | (Returned, c, data') =>
              (check_expected_length expected_length (patch_length c), data')
          end
      end
  end.

(** [BlobPatch.apply].  Whatever offset the [try] statement computed is
    overwritten by the assignment of line 167. *)
Definition BlobPatch_apply (address : Z) (new_content : bytearray)
  (decrypted_image_path : Path) (image_base_address : Z)
  (image_data : bytearray) : outcome * bytearray :=
  match try_macho_file_offset decrypted_image_path address image_base_address with
  | inl e => (Raised (LibraryError e), image_data)
  | inr _ =>
      let patch_file_offset := address - image_base_address in
      if (patch_file_offset <? 0) || (patch_file_offset >=? len image_data)
      then (Raised (ValueError (InvalidOffset patch_file_offset)), image_data)
      else (Returned,
            setslice image_data patch_file_offset
              (patch_file_offset + len new_content) new_content)
  end.

(** The loop of [PatchSet.apply] (lines 199-200) over members of any
    class [P] with an [apply] method.  Besides the outcome and the buffer
    it yields the calls it made, in the order in which it made them. *)
Definition for_each_patch {P : Type}
  (member_apply : P -> Path -> Z -> bytearray -> outcome * bytearray)
  (decrypted_image_path : Path) (image_base_address : Z)
  : list P -> bytearray -> list (Call P) * (outcome * bytearray) :=
  fix go (patches : list P) (image_data : bytearray) :=
    match patches with
    | [] => ([], (Returned, image_data))
    | patch :: rest =>
        let call := {| callee := patch;
                       call_path := decrypted_image_path;
                       call_base := image_base_address;
                       call_data := image_data |} in
        match member_apply patch decrypted_image_path image_base_address
                image_data with
        | (Returned, image_data') =>
            let (calls, r) := go rest image_data' in (call :: calls, r)
        | (Raised e, image_data') => ([call], (Raised e, image_data'))
        end
    end.

(** [Patch.apply], dispatched on the class of the receiver. *)
Fixpoint apply (p : Patch) (decrypted_image_path : Path)
  (image_base_address : Z) (image_data : bytearray) {struct p}
  : outcome * bytearray :=
  match p with
  | InstructionPatch _ address orig_instructions patched_instructions
      expected_length =>
      InstructionPatch_apply address orig_instructions patched_instructions
        expected_length decrypted_image_path image_base_address image_data
  | BlobPatch address new_content =>
      BlobPatch_apply address new_content decrypted_image_path
        image_base_address image_data
  | PatchSet _ patches =>
      snd (for_each_patch apply decrypted_image_path image_base_address
             patches image_data)
  end.

(** The calls [PatchSet.apply] makes on its members. *)
Definition PatchSet_calls (patches : list Patch) (decrypted_image_path : Path)
  (image_base_address : Z) (image_data : bytearray) : list (Call Patch) :=
  fst (for_each_patch apply decrypted_image_path image_base_address
         patches image_data).

End Engine.

End patches.

(* ===================================================================== *)
(** ** patches/dmg_patches.py *)
(* ===================================================================== *)

Module dmg_patches.

(** [Path(a) / b] *)
Definition joinpath (a b : Path) : Path := (a ++ "/" ++ b)%string.

(** [str(n)] for an [int] *)
Definition str_of_int (n : Z) : string :=
  DecimalString.NilZero.string_of_int (Z.to_int n).

(** [ceil(n / 1024 / 1024)] for a file size [n]: dividing a size below
    2^53 by a power of two is exact in floating point, so the result is
    the ceiling of the quotient. *)
Definition ceil_mb (n : Z) : Z := - ((- n) / (1024 * 1024)).

Section Host.

(** The state of the machine the patcher runs on (its file system and
    its mounts), and the configuration handed to every patch. *)
Variables OS IpswPatcherConfig : Type.

(** [class DmgPatch]: the subclasses override [apply], which edits the
    mounted tree and may raise. *)
Record DmgPatch := {
  dmg_apply : IpswPatcherConfig -> Path -> OS -> OS * outcome
}.

(** [class FilePermission(Enum)] *)
Inductive FilePermission := Read | Write | Execute.

(** What the machine offers to [DmgPatchSet] and to its members.  The
    operations on the scratch directories and files are taken to succeed;
    running a command, removing a tree and applying a member may raise. *)
Class Host := {
  (** entering and leaving [with tempfile.TemporaryDirectory()] *)
  TemporaryDirectory_enter : OS -> OS * Path;
  TemporaryDirectory_exit : Path -> OS -> OS;
  (** [Path.write_bytes], [Path.read_bytes], [Path.stat().st_size] *)
  write_bytes : Path -> bytearray -> OS -> OS;
  read_bytes : Path -> OS -> bytearray;
  st_size : Path -> OS -> Z;
  (** [file.parent.mkdir(parents=True, exist_ok=True)] and
      [shutil.rmtree(tree)], which raises on a missing tree *)
  mkdir_parent : Path -> OS -> OS;
  rmtree : Path -> OS -> OS * outcome;
  (** [utils.run_and_check]: runs a command and raises when it fails *)
  run_and_check : list string -> OS -> OS * outcome
}.

(** What [DmgPatchSet.apply] does to its surroundings, in order: the
    commands it runs and the members it applies, each with its outcome. *)
Inductive Event :=
| Ran (argv : list string) (o : outcome)
| Applied (patch : DmgPatch) (mounted_dmg_root : Path) (o : outcome).

Definition event_outcome (ev : Event) : outcome :=
  match ev with
  | Ran _ o => o
  | Applied _ _ o => o
  end.

(** A computation on the machine that records its events and may raise. *)
Definition M (A : Type) : Type := OS -> OS * list Event * result A.

Definition mret {A} (a : A) : M A := fun os => (os, [], inr a).

Definition mbind {A B} (m : M A) (k : A -> M B) : M B :=
  fun os =>
    match m os with
    | (os1, evs1, inl e) => (os1, evs1, inl e)
    | (os1, evs1, inr a) =>
        match k a os1 with
        | (os2, evs2, r) => (os2, evs1 ++ evs2, r)
        end
    end.

(** [try: body finally: cleanup]: the cleanup runs however the body
    ends; an exception of the cleanup replaces the result of the body. *)
Definition try_finally {A} (body : M A) (cleanup : M unit) : M A :=
  fun os =>
    match body os with
    | (os1, evs1, r) =>
        match cleanup os1 with
        | (os2, evs2, inl e) => (os2, evs1 ++ evs2, inl e)
        | (os2, evs2, inr _) => (os2, evs1 ++ evs2, r)
        end
    end.

Definition of_outcome (o : outcome) : result unit :=
  match o with
  | Returned => inr tt
  | Raised e => inl e
  end.

Context `{Host}.

Definition modify (f : OS -> OS) : M unit := fun os => (f os, [], inr tt).
Definition inspect {A} (f : OS -> A) : M A := fun os => (os, [], inr (f os)).

(** A call of [run_and_check]. *)
Definition run (argv : list string) : M unit :=
  fun os =>
    let (os', o) := run_and_check argv os in
    (os', [Ran argv o], of_outcome o).

(** A call of [patch.apply(config, mounted_dmg_root)]. *)
Definition call_apply (patch : DmgPatch) (config : IpswPatcherConfig)
  (mounted_dmg_root : Path) : M unit :=
  fun os =>
    let (os', o) := dmg_apply patch config mounted_dmg_root os in
    (os', [Applied patch mounted_dmg_root o], of_outcome o).

(** [DmgApplyTarPatch] *)
Definition DmgApplyTarPatch (tar_path : Path) : DmgPatch :=
  {| dmg_apply := fun _ mounted_ramdisk_path =>
       run_and_check ["tar"; "-xvf"; tar_path; "-C"; mounted_ramdisk_path] |}.

(** [DmgRemoveTreePatch] *)
Definition DmgRemoveTreePatch (tree_path : Path) : DmgPatch :=
  {| dmg_apply := fun _ mounted_ramdisk_path =>
       rmtree (joinpath mounted_ramdisk_path tree_path) |}.

(** [FilePermission.apply_to_file] *)
Definition apply_to_file (perm : FilePermission) (file : Path)
  : OS -> OS * outcome :=
  let chmod_flag :=
    match perm with
    | Read => "r"
    | Write => "w"
    | Execute => "x"
    end in
  run_and_check ["chmod"; ("+" ++ chmod_flag)%string; file].

(** Lines 166-167. *)
Fixpoint apply_permissions (perms : list FilePermission) (file : Path)
  (os : OS) : OS * outcome :=
  match perms with
  | [] => (os, Returned)
  | perm :: rest =>
      match apply_to_file perm file os with
      | (os', Returned) => apply_permissions rest file os'
      | (os', Raised e) => (os', Raised e)
      end
  end.

(** [DmgReplaceFileContentsPatch]; no permissions and an empty list of
    permissions are both false in the condition of line 164. *)
Definition DmgReplaceFileContentsPatch (file_path : Path)
  (new_content : bytearray) (new_permissions : option (list FilePermission))
  : DmgPatch :=
  {| dmg_apply := fun _ mounted_ramdisk_path os =>
       let qualified_path := joinpath mounted_ramdisk_path file_path in
       let os1 := mkdir_parent qualified_path os in
       let os2 := write_bytes qualified_path new_content os1 in
       match new_permissions with
       | Some (perm :: rest) => apply_permissions (perm :: rest) qualified_path os2
       | _ => (os2, Returned)
       end |}.

(** [with tempfile.TemporaryDirectory() as d: body] *)
Definition with_TemporaryDirectory {A} (body : Path -> M A) : M A :=
  fun os =>
    let (os0, d) := TemporaryDirectory_enter os in
    match body d os0 with
    | (os1, evs, r) => (TemporaryDirectory_exit d os1, evs, r)
    end.

Definition hdiutil_resize (size_in_mb : Z) (dmg : Path) : list string :=
  ["hdiutil"; "resize"; "-size"; (str_of_int size_in_mb ++ "M")%string; dmg].

Definition hdiutil_attach (mount_point dmg : Path) : list string :=
  ["hdiutil"; "attach"; "-mountpoint"; (mount_point ++ "/")%string; dmg].

Definition hdiutil_detach (mount_point : Path) : list string :=
  ["hdiutil"; "detach"; mount_point].

(** [DmgPatchSet._mount_dmg], a generator turned into a context manager:
    [with self._mount_dmg(path) as root: body] runs the generator up to
    its [yield], then the body, then resumes the generator, at the
    [yield] and with the exception of the body if it raised one. *)
Definition _mount_dmg {A} (path : Path) (body : Path -> M A) : M A :=
  with_TemporaryDirectory (fun mount_dir_raw =>
    let mount_point := joinpath mount_dir_raw "dmg_mount_point" in
    mbind (run (hdiutil_attach mount_point path)) (fun _ =>
    try_finally (body mount_point) (run (hdiutil_detach mount_point)))).

(** Lines 62-63. *)
Fixpoint apply_each (patches : list DmgPatch) (config : IpswPatcherConfig)
  (mounted_dmg_root : Path) : M unit :=
  match patches with
  | [] => mret tt
  | patch :: rest =>
      mbind (call_apply patch config mounted_dmg_root) (fun _ =>
      apply_each rest config mounted_dmg_root)
  end.

(** The path of the scratch image inside its temporary directory. *)
Definition scratch_dmg (temp_dir : Path) : Path :=
  joinpath temp_dir "ramdisk.dmg".

(** Lines 36-64 of [DmgPatchSet.apply], up to the bytes that line 64
    stores into [image_data]. *)
Definition apply_body (patches : list DmgPatch) (config : IpswPatcherConfig)
  (image_data : bytearray) : M bytearray :=
  with_TemporaryDirectory (fun temp_dir =>
    let decrypted_ramdisk_with_dmg_extension := scratch_dmg temp_dir in
    mbind (modify (write_bytes decrypted_ramdisk_with_dmg_extension image_data))
      (fun _ =>
    mbind (inspect (st_size decrypted_ramdisk_with_dmg_extension))
      (fun current_dmg_size =>
    let extra_room := 1024 * 1024 * 4 in
    let increased_dmg_size := current_dmg_size + extra_room in
    let total_dmg_size_in_mb := ceil_mb increased_dmg_size in
    mbind (run (hdiutil_resize total_dmg_size_in_mb
                  decrypted_ramdisk_with_dmg_extension)) (fun _ =>
    mbind (_mount_dmg decrypted_ramdisk_with_dmg_extension
             (apply_each patches config)) (fun _ =>
    inspect (read_bytes decrypted_ramdisk_with_dmg_extension)))))).

(** [DmgPatchSet.apply]: the machine afterwards, the events, the outcome
    and the caller's buffer, which line 64 overwrites as a whole when it
    is reached. *)
Definition apply (patches : list DmgPatch) (config : IpswPatcherConfig)
  (decrypted_image_path : Path) (image_base_address : Z)
  (image_data : bytearray) (os : OS)
  : OS * list Event * (outcome * bytearray) :=
  match apply_body patches config image_data os with
  | (os', evs, inl e) => (os', evs, (Raised e, image_data))
  | (os', evs, inr new_bytes) =>
      (os', evs, (Returned, setslice image_data 0 (len image_data) new_bytes))
  end.

(** Recognisers of the events of the mount. *)
Definition is_attach (ev : Event) : bool :=
  match ev with
  | Ran ("hdiutil" :: "attach" :: _) _ => true
  | _ => false
  end.

Definition is_detach (ev : Event) : bool :=
  match ev with
  | Ran ("hdiutil" :: "detach" :: _) _ => true
  | _ => false
  end.

Definition is_applied (ev : Event) : bool :=
  match ev with
  | Applied _ _ _ => true
  | _ => false
  end.

End Host.

Arguments TemporaryDirectory_enter {OS _}.
Arguments TemporaryDirectory_exit {OS _}.
Arguments write_bytes {OS _}.
Arguments read_bytes {OS _}.
Arguments st_size {OS _}.
Arguments mkdir_parent {OS _}.
Arguments rmtree {OS _}.
Arguments run_and_check {OS _}.
Arguments dmg_apply {OS IpswPatcherConfig}.
Arguments Ran {OS IpswPatcherConfig}.
Arguments Applied {OS IpswPatcherConfig}.
Arguments event_outcome {OS IpswPatcherConfig}.
Arguments is_attach {OS IpswPatcherConfig}.
Arguments is_detach {OS IpswPatcherConfig}.
Arguments is_applied {OS IpswPatcherConfig}.
Arguments mret {OS IpswPatcherConfig A}.
Arguments mbind {OS IpswPatcherConfig A B}.
Arguments try_finally {OS IpswPatcherConfig A}.
Arguments run {OS IpswPatcherConfig _}.
Arguments call_apply {OS IpswPatcherConfig}.
Arguments DmgApplyTarPatch {OS IpswPatcherConfig _}.
Arguments DmgRemoveTreePatch {OS IpswPatcherConfig _}.
Arguments DmgReplaceFileContentsPatch {OS IpswPatcherConfig _}.
Arguments with_TemporaryDirectory {OS IpswPatcherConfig _ A}.
Arguments _mount_dmg {OS IpswPatcherConfig _ A}.
Arguments apply_each {OS IpswPatcherConfig}.
Arguments apply_body {OS IpswPatcherConfig _}.
Arguments apply {OS IpswPatcherConfig _}.

End dmg_patches.

(* ===================================================================== *)
(** ** A small concrete tool chain and machine *)
(* ===================================================================== *)

(** A few Thumb encodings, enough to run the engine on concrete buffers. *)
Module Thumb.

Definition insn (m o : string) : CsInsn := {| mnemonic := m; op_str := o |}.

Definition encodings : list (bytearray * CsInsn) :=
  [ ([x00; xbf], insn "nop" EmptyString);
    ([x70; x47], insn "bx" "lr");
    ([x00; x20], insn "movs" "r0, #0");
    ([x01; x20], insn "movs" "r0, #1");
    ([xaf; xf3; x00; x80], insn "nop.w" EmptyString) ].

Fixpoint starts_with (prefix code : bytearray) : bool :=
  match prefix, code with
  | [], _ => true
  | p :: prefix', c :: code' => Byte.eqb p c && starts_with prefix' code'
  | _ :: _, [] => false
  end.

Definition decode_one (code : bytearray) : option (bytearray * CsInsn) :=
  find (fun entry => starts_with (fst entry) code) encodings.

(** Decoding stops at the first position that holds no instruction. *)
Fixpoint disasm_upto (fuel : nat) (code : bytearray) : list CsInsn :=
  match fuel with
  | O => []
  | S fuel' =>
      match decode_one code with
      | Some (encoding, i) =>
          i :: disasm_upto fuel' (skipn (length encoding) code)
      | None => []
      end
  end.

(** The binding refuses an empty buffer ("Buffer size too small"). *)
Definition disasm (code : bytearray) (address : Z)
  : library_result (list CsInsn) :=
  match code with
  | [] => raise (OtherError "ValueError")
  | _ :: _ => ret (disasm_upto (length code) code)
  end.

Definition asm (address : Z) (i : Instr) : library_result bytearray :=
  match find (fun entry => String.eqb (canonical_text (snd entry)) (value i))
          encodings with
  | Some (encoding, _) => ret encoding
  | None => raise (OtherError "assembler")
  end.

(** [Instr.thumb(value)] *)
Definition thumb (v : string) : Instr :=
  {| format := {| typical_size := 2 |}; value := v |}.

(** The file [macho] is a Mach-O whose text is mapped at 0x1000 and
    stored from file offset 0x10; every other file is a raw image. *)
Definition parser (path : Path) : library_result MachoParserObj :=
  if String.eqb path "macho" then
    ret {| is_magic_supported := true;
           get_armv7_slice :=
             ret {| file_offset_for_virtual_address :=
                      fun a => ret (a - 4096 + 16);
                    get_virtual_base := 4096 |} |}
  else raise ArchitectureNotSupportedError.

#[local] Instance toolchain : Toolchain :=
  {| cs_disasm := disasm; assemble := asm; MachoParser := parser |}.

(** The load address of the raw image [iBSS]. *)
Definition iBSS_base : Z := 0x84000000.

End Thumb.

(** A machine with a table of files and a list of mounted images, whose
    [hdiutil attach] and [hdiutil detach] can be made to fail. *)
Module Machine.

Record OS := {
  temp_dirs : nat;
  attach_fails : bool;
  detach_fails : bool;
  mounts : list Path;
  files : list (Path * bytearray)
}.

Definition lookup (p : Path) (os : OS) : bytearray :=
  match find (fun entry => String.eqb (fst entry) p) (files os) with
  | Some (_, content) => content
  | None => []
  end.

Definition set_files (fs : list (Path * bytearray)) (os : OS) : OS :=
  {| temp_dirs := temp_dirs os;
     attach_fails := attach_fails os;
     detach_fails := detach_fails os;
     mounts := mounts os;
     files := fs |}.

Definition set_mounts (ms : list Path) (os : OS) : OS :=
  {| temp_dirs := temp_dirs os;
     attach_fails := attach_fails os;
     detach_fails := detach_fails os;
     mounts := ms;
     files := files os |}.

Definition store (p : Path) (content : bytearray) (os : OS) : OS :=
  set_files ((p, content) :: files os) os.

Definition mkdtemp (os : OS) : OS * Path :=
  ({| temp_dirs := S (temp_dirs os);
      attach_fails := attach_fails os;
      detach_fails := detach_fails os;
      mounts := mounts os;
      files := files os |},
   ("/tmp/t" ++ dmg_patches.str_of_int (Z.of_nat (temp_dirs os)))%string).

(** [hdiutil attach -mountpoint m/ image] mounts an image at [m/], and
    [hdiutil detach m] releases it; every other command returns and
    leaves the machine as it is. *)
Definition command (argv : list string) (os : OS) : OS * outcome :=
  match argv with
  | ["hdiutil"; "attach"; "-mountpoint"; mount_point; _] =>
      if attach_fails os then (os, Raised (LibraryError (CommandFailed argv)))
      else (set_mounts (mount_point :: mounts os) os, Returned)
  | "hdiutil" :: "attach" :: _ =>
      if attach_fails os then (os, Raised (LibraryError (CommandFailed argv)))
      else (os, Returned)
  | ["hdiutil"; "detach"; mount_point] =>
      if detach_fails os then (os, Raised (LibraryError (CommandFailed argv)))
      else
        (set_mounts
           (filter (fun m => negb (String.eqb m (mount_point ++ "/")%string))
              (mounts os)) os,
         Returned)
  | _ => (os, Returned)
  end.

(** Only the files the table holds can be removed. *)
Definition remove (p : Path) (os : OS) : OS * outcome :=
  if existsb (fun entry => String.eqb (fst entry) p) (files os) then
    (set_files (filter (fun entry => negb (String.eqb (fst entry) p))
                  (files os)) os,
     Returned)
  else (os, Raised (LibraryError (OtherError "FileNotFoundError"))).

#[local] Instance host : dmg_patches.Host OS :=
  {| dmg_patches.TemporaryDirectory_enter := mkdtemp;
     dmg_patches.TemporaryDirectory_exit := fun _ os => os;
     dmg_patches.write_bytes := store;
     dmg_patches.read_bytes := lookup;
     dmg_patches.st_size := fun p os => len (lookup p os);
     dmg_patches.mkdir_parent := fun _ os => os;
     dmg_patches.rmtree := remove;
     dmg_patches.run_and_check := command |}.

(** A member that writes a file of the image: here, the image itself
    gains a byte. *)
Definition grow (dmg : Path) : dmg_patches.DmgPatch OS unit :=
  {| dmg_patches.dmg_apply := fun _ _ os =>
       (store dmg (lookup dmg os ++ [xff]) os, Returned) |}.

(** The member that removes the Compass application; the machine has
    no such tree. *)
Definition remove_compass : dmg_patches.DmgPatch OS unit :=
  dmg_patches.DmgRemoveTreePatch "Applications/Compass.app".

Definition boot (attach_fails : bool) : OS :=
  {| temp_dirs := 0; attach_fails := attach_fails; detach_fails := false;
     mounts := []; files := [] |}.


End Machine.

(* ===================================================================== *)
(** ** The vocabulary of the specification *)
(* ===================================================================== *)

Module spec.

Section Vocabulary.
Context `{Toolchain}.

(** The replacement instructions [instrs], each assembled at its cursor
    address, the first at [address] and every next one directly behind
    the bytes of the one before, decode back to exactly one instruction
    with exactly the declared canonical text; the result is the list of
    the assembled encodings.  [None] when some instruction does not. *)
Fixpoint assembled_replacements (address : Z) (instrs : list Instr)
  : option (list bytearray) :=
  match instrs with
  | [] => Some []
  | i :: rest =>
      match assemble address i with
      | inl _ => None
      | inr encoding =>
          match cs_disasm encoding address with
          | inr [d] =>
              if String.eqb (canonical_text d) (value i) then
                option_map (cons encoding)
                  (assembled_replacements (address + len encoding) rest)
              else None
          | _ => None
          end
      end
  end.

(** The initial cursors of the replacement loop. *)
Definition start_cursor (address offset : Z) : patches.Cursor :=
  {| patches.patched_instr_address := address;
     patches.patch_file_offset := offset;
     patches.patch_length := 0 |}.

End Vocabulary.

(** The calls of a loop over the members of a set, one after the other
    on one buffer: the first call finds the buffer [d]; a call that
    returns hands the buffer it leaves to the next call; a call that
    raises is the last one.  [r] is how the loop ends. *)
Inductive Threaded {P : Type}
  (member_apply : P -> Path -> Z -> bytearray -> outcome * bytearray)
  : bytearray -> list (patches.Call P) -> outcome * bytearray -> Prop :=
| Threaded_done d :
    Threaded member_apply d [] (Returned, d)
| Threaded_raise c e d' :
    member_apply (patches.callee c) (patches.call_path c)
      (patches.call_base c) (patches.call_data c) = (Raised e, d') ->
    Threaded member_apply (patches.call_data c) [c] (Raised e, d')
| Threaded_next c d' cs r :
    member_apply (patches.callee c) (patches.call_path c)
      (patches.call_base c) (patches.call_data c) = (Returned, d') ->
    Threaded member_apply d' cs r ->
    Threaded member_apply (patches.call_data c) (c :: cs) r.

Section MountEvents.
Context {OS IpswPatcherConfig : Type}.

(** How the members of a [DmgPatchSet] fared on the mounted image: the
    first [k] returned and, unless they were all, the next one raised. *)
Definition member_events (mounted_dmg_root : Path)
  (patches : list (dmg_patches.DmgPatch OS IpswPatcherConfig)) (k : nat)
  (failure : option (dmg_patches.DmgPatch OS IpswPatcherConfig * exn))
  : list (dmg_patches.Event OS IpswPatcherConfig) :=
  map (fun p => dmg_patches.Applied p mounted_dmg_root Returned)
    (firstn k patches)
  ++ match failure with
     | None => []
     | Some (p, e) => [dmg_patches.Applied p mounted_dmg_root (Raised e)]
     end.

Definition member_result
  (failure : option (dmg_patches.DmgPatch OS IpswPatcherConfig * exn))
  : result unit :=
  match failure with
  | None => inr tt
  | Some (_, e) => inl e
  end.

Definition member_position
  (patches : list (dmg_patches.DmgPatch OS IpswPatcherConfig)) (k : nat)
  (failure : option (dmg_patches.DmgPatch OS IpswPatcherConfig * exn))
  : Prop :=
  match failure with
  | None => k = length patches
  | Some (p, _) => nth_error patches k = Some p
  end.

(** How a call ends whose mount scope was entered: an exception of the
    detach comes first, then one of a member. *)
Definition scope_outcome
  (failure : option (dmg_patches.DmgPatch OS IpswPatcherConfig * exn))
  (o_detach : outcome) : outcome :=
  match o_detach, failure with
  | Raised e, _ => Raised e
  | Returned, Some (_, e) => Raised e
  | Returned, None => Returned
  end.

End MountEvents.

End spec.

(* ===================================================================== *)
(** ** patches.py: the class methods of InstructionPatch *)
(* ===================================================================== *)

Module patches_classmethods.

(** [InstructionPatch.quick]: [new_instr] is one instruction or a list
    of instructions. *)
Definition quick (addr : Z) (new_instr : Instr + list Instr)
  (expected_length : option Z) : patches.Patch :=
  patches.InstructionPatch EmptyString addr []
    (match new_instr with
     | inl i => [i]
     | inr l => l
     end)
    expected_length.

(** [InstructionPatch.shellcode]; [Instr_thumb] stands for [Instr.thumb]
    of the module [assemble]. *)
Definition shellcode (Instr_thumb : string -> Instr) (addr : Z)
  : patches.Patch :=
  let branch_to_shellcode := Instr_thumb "bl #0x5ff000fc" in
  patches.InstructionPatch EmptyString addr [] [branch_to_shellcode] None.

End patches_classmethods.

(* ===================================================================== *)
(** ** The patches of the package: [Patch] objects and DmgBinaryPatch *)
(* ===================================================================== *)

Module patches_base.

Section Base.
Variables OS IpswPatcherConfig : Type.

(** A [Patch] of the package [patches], as [DmgPatchSet.apply] overrides
    it and as [DmgBinaryPatch.apply] and [apply_patches] call it:
    [apply(config, decrypted_image_path, image_base_address, image_data)]
    may change the machine, mutates the buffer and may raise. *)
Record Patch := {
  patch_apply : IpswPatcherConfig -> Path -> Z -> bytearray ->
                OS -> OS * (outcome * bytearray)
}.

End Base.

Arguments patch_apply {OS IpswPatcherConfig}.

End patches_base.

Module dmg_binary_patch.
Import patches_base.

(** [s.replace("/", "_")] *)
Fixpoint replace_slashes (s : string) : string :=
  match s with
  | EmptyString => EmptyString
  | String c s' =>
      String (if Ascii.eqb c "/" then "_"%char else c) (replace_slashes s')
  end.

Section Binary.
Variables OS IpswPatcherConfig : Type.
Context `{dmg_patches.Host OS}.

(** What [DmgBinaryPatch] needs besides: whether a file exists, the
    Mach-O parser on the files of the machine, the directory
    [PATCHED_IMAGES_ROOT / config.os_build.unescaped_name], which this
    code does not create, and whether a [Path.write_bytes] raises, as it
    does with [FileNotFoundError] when the directory of the file is
    missing, and the machine it then leaves. *)
Class BinaryHost := {
  path_exists : Path -> OS -> bool;
  macho_parser : OS -> Path -> library_result MachoParserObj;
  output_dir : IpswPatcherConfig -> Path;
  write_bytes_error : Path -> bytearray -> OS -> option (OS * exn)
}.

Context `{BinaryHost}.

(** [path.write_bytes(data)], which may raise. *)
Definition Path_write_bytes (path : Path) (data : bytearray) (os : OS)
  : OS * outcome :=
  match write_bytes_error path data os with
  | Some (os', e) => (os', Raised e)
  | None => (dmg_patches.write_bytes path data os, Returned)
  end.

(** [MachoParser(path).get_armv7_slice().get_virtual_base()] *)
Definition virtual_base_of (path : Path) (os : OS) : library_result Z :=
  (parser <- macho_parser os path ;;
   binary <- get_armv7_slice parser ;;
   ret (get_virtual_base binary))%py.

(** The path of the copy line 199 names. *)
Definition saved_binary_path (config : IpswPatcherConfig)
  (binary_path : Path) : Path :=
  dmg_patches.joinpath (output_dir config) (replace_slashes binary_path).

(** [DmgBinaryPatch.apply] *)
Definition DmgBinaryPatch_apply (binary_path : Path)
  (inner_patch : Patch OS IpswPatcherConfig)
  (config : IpswPatcherConfig) (ramdisk_root : Path) (os : OS)
  : OS * outcome :=
  let qualified_binary_path := dmg_patches.joinpath ramdisk_root binary_path in
  if negb (path_exists qualified_binary_path os) then
    (os, Raised (LibraryError (OtherError "RuntimeError")))
  else
    match virtual_base_of qualified_binary_path os with
    | inl e => (os, Raised (LibraryError e))
    | inr virtual_base =>
        let patched_binary_data :=
          dmg_patches.read_bytes qualified_binary_path os in
        match patch_apply inner_patch config qualified_binary_path
                virtual_base patched_binary_data os with
        | (os1, (Raised e, _)) => (os1, Raised e)
        | (os1, (Returned, patched_binary_data')) =>
            match Path_write_bytes qualified_binary_path
                    patched_binary_data' os1 with
            | (os2, Raised e) => (os2, Raised e)
            | (os2, Returned) =>
                Path_write_bytes (saved_binary_path config binary_path)
                  patched_binary_data' os2
            end
        end
    end.

(** [DmgBinaryPatch] as a member of a [DmgPatchSet]. *)
Definition DmgBinaryPatch (binary_path : Path)
  (inner_patch : Patch OS IpswPatcherConfig)
  : dmg_patches.DmgPatch OS IpswPatcherConfig :=
  {| dmg_patches.dmg_apply := DmgBinaryPatch_apply binary_path inner_patch |}.

End Binary.

Arguments path_exists {OS IpswPatcherConfig _}.
Arguments macho_parser {OS IpswPatcherConfig _}.
Arguments output_dir {OS IpswPatcherConfig _}.
Arguments write_bytes_error {OS IpswPatcherConfig _}.
Arguments Path_write_bytes {OS IpswPatcherConfig _ _}.
Arguments virtual_base_of {OS IpswPatcherConfig _}.
Arguments saved_binary_path {OS IpswPatcherConfig _}.
Arguments DmgBinaryPatch_apply {OS IpswPatcherConfig _ _}.
Arguments DmgBinaryPatch {OS IpswPatcherConfig _ _}.

End dmg_binary_patch.

(* ===================================================================== *)
(** ** patcher.py *)
(* ===================================================================== *)

Module patcher.
Import patches_base.

(** [patches.Function] *)
Record Function := {
  name : string;
  address : Z
}.

(** The builds of [OsBuildEnum] that [patcher.py] names. *)
Inductive OsBuildEnum :=
| iPhone3_1_4_0_8A293
| iPhone3_1_4_1_8B117
| iPhone3_1_5_0_9A334
| iPhone3_1_6_1_10B144.

(** A [dict] with [str] keys, in insertion order: an assignment to a key
    that is present replaces its value in place. *)
Fixpoint dict_set {V} (k : string) (v : V) (d : list (string * V))
  : list (string * V) :=
  match d with
  | [] => [(k, v)]
  | (k', v') :: d' =>
      if String.eqb k' k then (k, v) :: d' else (k', v') :: dict_set k v d'
  end.

Definition dict_get {V} (k : string) (d : list (string * V)) : option V :=
  option_map snd (find (fun entry => String.eqb (fst entry) k) d).

(** [FunctionRepository._BUILDS_TO_KNOWN_FUNCTIONS] *)
Definition _BUILDS_TO_KNOWN_FUNCTIONS (os_build : OsBuildEnum)
  : list Function :=
  match os_build with
  | iPhone3_1_4_0_8A293 => []
  | iPhone3_1_4_1_8B117 => []
  | iPhone3_1_5_0_9A334 => []
  | iPhone3_1_6_1_10B144 =>
      [ {| name := "image3_load_validate_signature"; address := 0x8400568E |};
        {| name := "main_ibss"; address := 0x840008C8 |} ]
  end.

(** [{f.name: f for f in known_functions}] *)
Definition names_to_functions (known_functions : list Function)
  : list (string * Function) :=
  fold_left (fun d f => dict_set (name f) f d) known_functions [].

(** Lines 43-45 of [FunctionRepository.function_with_name], for any list
    of known functions; a missing name raises [KeyError]. *)
Definition function_named (known_functions : list Function) (n : string)
  : library_result Function :=
  match dict_get n (names_to_functions known_functions) with
  | Some f => ret f
  | None => raise (OtherError "KeyError")
  end.

(** [FunctionRepository.function_with_name] *)
Definition function_with_name (os_build : OsBuildEnum) (n : string)
  : library_result Function :=
  function_named (_BUILDS_TO_KNOWN_FUNCTIONS os_build) n.

Section ApplyPatches.
Variables OS IpswPatcherConfig : Type.
Context `{dmg_patches.Host OS}.

(** The loop of lines 149-150: every patch is applied to the one buffer;
    an exception ends the loop. *)
Fixpoint apply_all (patches : list (Patch OS IpswPatcherConfig))
  (patcher_config : IpswPatcherConfig) (input : Path) (base_address : Z)
  (patched_bytes : bytearray) (os : OS) : OS * (outcome * bytearray) :=
  match patches with
  | [] => (os, (Returned, patched_bytes))
  | patch :: rest =>
      match patch_apply patch patcher_config input base_address
              patched_bytes os with
      | (os1, (Returned, patched_bytes')) =>
          apply_all rest patcher_config input base_address patched_bytes' os1
      | (os1, (Raised e, patched_bytes')) => (os1, (Raised e, patched_bytes'))
      end
  end.

(** [apply_patches]; [base_address] is [image_type.base_address]. *)
Definition apply_patches (patcher_config : IpswPatcherConfig)
  (base_address : Z) (input output : Path)
  (patches : list (Patch OS IpswPatcherConfig)) (os : OS) : OS * outcome :=
  let input_bytes := dmg_patches.read_bytes input os in
  match apply_all patches patcher_config input base_address input_bytes os with
  | (os1, (Raised e, _)) => (os1, Raised e)
  | (os1, (Returned, patched_bytes)) =>
      (dmg_patches.write_bytes output patched_bytes os1, Returned)
  end.

End ApplyPatches.

Arguments apply_all {OS IpswPatcherConfig}.
Arguments apply_patches {OS IpswPatcherConfig _}.

End patcher.

(* ===================================================================== *)
(** ** patches.py: RamdiskBinaryPatch *)
(* ===================================================================== *)

Module ramdisk.

Section Ramdisk.
Variable OS : Type.
Context `{dmg_patches.Host OS}.

(** What [RamdiskBinaryPatch] needs besides: [shutil.copy], which may
    raise, [Path.exists], [utils.run_and_capture_output_and_check], the
    mount point [plistlib] finds in the output of [hdiutil attach -plist]
    (reading it may raise), and the disassembler, the assembler and the
    Mach-O parser on the files of the machine. *)
Class RamdiskHost := {
  copy : Path -> Path -> OS -> OS * outcome;
  path_exists : Path -> OS -> bool;
  run_and_capture_output_and_check :
    list string -> OS -> OS * result bytearray;
  mount_point_of_plist : bytearray -> result Path;
  tools : OS -> Toolchain
}.

Context `{RamdiskHost}.

Definition M (A : Type) : Type := dmg_patches.M OS unit A.

Definition outcome_of {A} (r : result A) : outcome :=
  match r with
  | inl e => Raised e
  | inr _ => Returned
  end.

(** A call of [run_and_capture_output_and_check]. *)
Definition capture (argv : list string) : M bytearray :=
  fun os =>
    let (os', r) := run_and_capture_output_and_check argv os in
    (os', [dmg_patches.Ran argv (outcome_of r)], r).

(** A step that may raise and leaves no event. *)
Definition attempt (f : OS -> OS * outcome) : M unit :=
  fun os => let (os', o) := f os in (os', [], dmg_patches.of_outcome o).

Definition pure {A} (r : result A) : M A := fun os => (os, [], r).

Definition hdiutil_attach_plist (path : Path) : list string :=
  ["hdiutil"; "attach"; "-plist"; path].

Definition hdiutil_resize_20M (dmg : Path) : list string :=
  ["hdiutil"; "resize"; "-size"; "20M"; dmg].

Definition ldid_sign (binary : Path) : list string :=
  ["/Users/philliptennen/Documents/Jailbreak/tools/ldid/ldid"; "-S"; binary].

(** [_mount_dmg] of [patches.py]: the [try] begins once the mount point
    has been read from the output of the attach. *)
Definition _mount_dmg {A} (path : Path) (body : Path -> M A) : M A :=
  dmg_patches.mbind (capture (hdiutil_attach_plist path))
    (fun hdiutil_output_raw =>
  dmg_patches.mbind (pure (mount_point_of_plist hdiutil_output_raw))
    (fun mounted_dmg_root =>
  dmg_patches.try_finally (body mounted_dmg_root)
    (dmg_patches.run (dmg_patches.hdiutil_detach mounted_dmg_root)))).

(** [MachoParser(path).get_armv7_slice().get_virtual_base()] *)
Definition virtual_base_of (path : Path) (os : OS) : library_result Z :=
  (parser <- @MachoParser (tools os) path ;;
   binary <- get_armv7_slice parser ;;
   ret (get_virtual_base binary))%py.

(** [RamdiskBinaryPatch._apply_patch] *)
Definition _apply_patch (binary_path : Path) (inner_patch : patches.Patch)
  (ramdisk_root : Path) : M unit :=
  fun os =>
    let qualified_binary_path :=
      dmg_patches.joinpath ramdisk_root binary_path in
    if negb (path_exists qualified_binary_path os) then
      (os, [], inl (LibraryError (OtherError "RuntimeError")))
    else
      match virtual_base_of qualified_binary_path os with
      | inl e => (os, [], inl (LibraryError e))
      | inr virtual_base =>
          let patched_binary_data :=
            dmg_patches.read_bytes qualified_binary_path os in
          match @patches.apply (tools os) inner_patch qualified_binary_path
                  virtual_base patched_binary_data with
          | (Raised e, _) => (os, [], inl e)
          | (Returned, patched_binary_data') =>
              dmg_patches.run (ldid_sign qualified_binary_path)
                (dmg_patches.write_bytes qualified_binary_path
                   patched_binary_data' os)
          end
      end.

(** Lines 238-261 of [RamdiskBinaryPatch.apply], up to the bytes that
    line 261 stores into [image_data]. *)
Definition apply_body (binary_path : Path) (inner_patch : patches.Patch)
  (decrypted_image_path : Path) : M bytearray :=
  dmg_patches.with_TemporaryDirectory (fun temp_dir =>
    let decrypted_ramdisk_with_dmg_extension :=
      dmg_patches.joinpath temp_dir "ramdisk.dmg" in
    dmg_patches.mbind
      (attempt (copy decrypted_image_path
                  decrypted_ramdisk_with_dmg_extension)) (fun _ =>
    dmg_patches.mbind
      (dmg_patches.run
         (hdiutil_resize_20M decrypted_ramdisk_with_dmg_extension)) (fun _ =>
    dmg_patches.mbind
      (_mount_dmg decrypted_ramdisk_with_dmg_extension
         (_apply_patch binary_path inner_patch)) (fun _ =>
    dmg_patches.inspect OS unit
      (dmg_patches.read_bytes decrypted_ramdisk_with_dmg_extension))))).

(** [RamdiskBinaryPatch.apply] *)
Definition apply (binary_path : Path) (inner_patch : patches.Patch)
  (decrypted_image_path : Path) (image_base_address : Z)
  (image_data : bytearray) (os : OS)
  : OS * list (dmg_patches.Event OS unit) * (outcome * bytearray) :=
  match apply_body binary_path inner_patch decrypted_image_path os with
  | (os', evs, inl e) => (os', evs, (Raised e, image_data))
  | (os', evs, inr new_bytes) =>
      (os', evs, (Returned, setslice image_data 0 (len image_data) new_bytes))
  end.

End Ramdisk.

Arguments copy {OS _}.
Arguments path_exists {OS _}.
Arguments run_and_capture_output_and_check {OS _}.
Arguments mount_point_of_plist {OS _}.
Arguments tools {OS _}.
Arguments capture {OS _}.
Arguments _mount_dmg {OS _ _ A}.
Arguments virtual_base_of {OS _}.
Arguments _apply_patch {OS _ _}.
Arguments apply_body {OS _ _}.
Arguments apply {OS _ _}.

End ramdisk.

(** The machine of the examples, with what the binary patches need. *)
Module MachineTools.

Definition present (p : Path) (os : Machine.OS) : bool :=
  existsb (fun entry => String.eqb (fst entry) p) (Machine.files os).

(** Every file that is present parses as a Mach-O mapped at 0x1000. *)
Definition parser (os : Machine.OS) (path : Path)
  : library_result MachoParserObj :=
  if present path os then
    ret {| is_magic_supported := true;
           get_armv7_slice :=
             ret {| file_offset_for_virtual_address :=
                      fun a => ret (a - 4096);
                    get_virtual_base := 4096 |} |}
  else raise ArchitectureNotSupportedError.

(** A machine on which every file can be written. *)
#[local] Instance binary_host
  : dmg_binary_patch.BinaryHost Machine.OS unit :=
  {| dmg_binary_patch.path_exists := present;
     dmg_binary_patch.macho_parser := parser;
     dmg_binary_patch.output_dir := fun _ => "patched_images/8A293";
     dmg_binary_patch.write_bytes_error := fun _ _ _ => None |}.

(** The same machine without the directory [patched_images]: a file
    below it cannot be opened, and the machine stays as it is. *)
Definition binary_host_without_output_dir
  : dmg_binary_patch.BinaryHost Machine.OS unit :=
  {| dmg_binary_patch.path_exists := present;
     dmg_binary_patch.macho_parser := parser;
     dmg_binary_patch.output_dir := fun _ => "patched_images/8A293";
     dmg_binary_patch.write_bytes_error := fun path _ os =>
       if String.prefix "patched_images/" path
       then Some (os, LibraryError (OtherError "FileNotFoundError"))
       else None |}.

(** A [Patch] object that applies a patch of [patches.py] with the tools
    of the machine. *)
Definition lift (p : patches.Patch) : patches_base.Patch Machine.OS unit :=
  {| patches_base.patch_apply := fun _ path base data os =>
       (os, @patches.apply
              {| cs_disasm := Thumb.disasm; assemble := Thumb.asm;
                 MachoParser := parser os |}
              p path base data) |}.

Definition copy_file (src dst : Path) (os : Machine.OS)
  : Machine.OS * outcome :=
  if present src os then (Machine.store dst (Machine.lookup src os) os, Returned)
  else (os, Raised (LibraryError (OtherError "FileNotFoundError"))).

(** The attach prints what the file [hdiutil.out] holds; without that
    file the output names no mount point. *)
Definition attach_output (argv : list string) (os : Machine.OS)
  : Machine.OS * result bytearray :=
  if Machine.attach_fails os then
    (os, inl (LibraryError (CommandFailed argv)))
  else (os, inr (Machine.lookup "hdiutil.out" os)).

Definition plist_mount_point (raw : bytearray) : result Path :=
  match raw with
  | [] => inl (LibraryError (OtherError "KeyError"))
  | _ :: _ => inr "/Volumes/ramdisk"
  end.

#[local] Instance ramdisk_host : ramdisk.RamdiskHost Machine.OS :=
  {| ramdisk.copy := copy_file;
     ramdisk.path_exists := present;
     ramdisk.run_and_capture_output_and_check := attach_output;
     ramdisk.mount_point_of_plist := plist_mount_point;
     ramdisk.tools := fun os =>
       {| cs_disasm := Thumb.disasm; assemble := Thumb.asm;
          MachoParser := parser os |} |}.

(** A machine that holds the files [files]. *)
Definition with_files (files : list (Path * bytearray)) : Machine.OS :=
  Machine.set_files files (Machine.boot false).

End MachineTools.

(* ===================================================================== *)
(** ** Slices *)
(* ===================================================================== *)

Module PyFacts.

Lemma len_nonneg {A} (l : list A) : 0 <= len l.
Proof. unfold len. lia. Qed.

Lemma len_app {A} (l1 l2 : list A) : len (l1 ++ l2) = len l1 + len l2.
Proof. unfold len. rewrite length_app. lia. Qed.

Lemma len_nil {A} : len (@nil A) = 0.
Proof. reflexivity. Qed.

Lemma adjust_index_inside i n : 0 <= i <= n -> adjust_index i n = i.
Proof.
  intros Hi. unfold adjust_index.
  destruct (Z.ltb_spec i 0); lia.
Qed.

Lemma firstn_app_exact {A} (p r : list A) (n : nat) :
  n = length p -> firstn n (p ++ r) = p.
Proof.
  intros ->. rewrite firstn_app, Nat.sub_diag, firstn_all. simpl.
  apply app_nil_r.
Qed.

Lemma skipn_app_past {A} (p r : list A) (n k : nat) :
  n = (length p + k)%nat -> skipn n (p ++ r) = skipn k r.
Proof.
  intros ->. rewrite skipn_app, skipn_all2 by lia. simpl.
  f_equal. lia.
Qed.

Lemma length_firstn_inside {A} (l : list A) (off : Z) :
  0 <= off <= len l -> length (firstn (Z.to_nat off) l) = Z.to_nat off.
Proof. intros Hoff. rewrite length_firstn. unfold len in *. lia. Qed.

(** Writing a slice that lies inside the sequence replaces exactly the
    elements of the slice. *)
Lemma setslice_inside {A} (l v : list A) (off : Z) :
  0 <= off -> off + len v <= len l ->
  setslice l off (off + len v) v =
  firstn (Z.to_nat off) l ++ v ++ skipn (Z.to_nat (off + len v)) l.
Proof.
  intros Hoff Hend. pose proof (len_nonneg v) as Hv.
  unfold setslice.
  rewrite !adjust_index_inside by lia.
  rewrite Z.max_r by lia. reflexivity.
Qed.

(** Writing a slice that starts inside the sequence: the elements from
    the start of the slice are replaced, and when the slice reaches past
    the end, the sequence grows. *)
Lemma setslice_from_inside {A} (l v : list A) (off : Z) :
  0 <= off <= len l ->
  setslice l off (off + len v) v =
  firstn (Z.to_nat off) l ++ v ++ skipn (Z.to_nat (off + len v)) l.
Proof.
  intros Hoff. pose proof (len_nonneg v) as Hv.
  destruct (Z.le_gt_cases (off + len v) (len l)) as [Hend | Hend].
  - apply setslice_inside; lia.
  - unfold setslice. rewrite adjust_index_inside by lia.
    unfold adjust_index. destruct (Z.ltb_spec (off + len v) 0); [lia |].
    rewrite Z.min_r, Z.max_r by lia.
    rewrite !skipn_all2 by (unfold len in *; lia). reflexivity.
Qed.

Lemma len_setslice_from_inside {A} (l v : list A) (off : Z) :
  0 <= off <= len l ->
  len (setslice l off (off + len v) v) = Z.max (len l) (off + len v).
Proof.
  intros Hoff. pose proof (len_nonneg v) as Hv.
  rewrite setslice_from_inside by assumption.
  unfold len in *.
  rewrite !length_app, length_firstn, length_skipn. lia.
Qed.

Lemma setslice_empty_inside {A} (l : list A) (off : Z) :
  0 <= off <= len l -> setslice l off off [] = l.
Proof.
  intros Hoff. unfold setslice.
  rewrite adjust_index_inside by lia.
  rewrite Z.max_id. simpl. apply firstn_skipn.
Qed.

Lemma len_setslice_inside {A} (l v : list A) (off : Z) :
  0 <= off -> off + len v <= len l ->
  len (setslice l off (off + len v) v) = len l.
Proof.
  intros Hoff Hend. pose proof (len_nonneg v) as Hv.
  rewrite setslice_inside by assumption.
  unfold len in *.
  rewrite !length_app, length_firstn, length_skipn. lia.
Qed.

Lemma getslice_setslice_inside {A} (l v : list A) (off : Z) :
  0 <= off -> off + len v <= len l ->
  getslice (setslice l off (off + len v) v) off (off + len v) = v.
Proof.
  intros Hoff Hend. pose proof (len_nonneg v) as Hv.
  unfold getslice. rewrite len_setslice_inside by assumption.
  rewrite !adjust_index_inside by lia.
  rewrite setslice_inside by assumption.
  pose proof (length_firstn_inside l off ltac:(lia)) as Hp.
  rewrite (skipn_app_past _ _ _ 0) by lia. simpl.
  apply firstn_app_exact. unfold len. lia.
Qed.

(** Writing what a slice inside the sequence already holds changes
    nothing. *)
Lemma setslice_same_inside {A} (l v : list A) (off : Z) :
  0 <= off -> off + len v <= len l ->
  getslice l off (off + len v) = v ->
  setslice l off (off + len v) v = l.
Proof.
  intros Hoff Hend Hsame. pose proof (len_nonneg v) as Hv.
  rewrite setslice_inside by lia.
  remember (len v) as n eqn:Hn. clear Hn. subst v.
  unfold getslice. rewrite !adjust_index_inside by lia.
  replace (off + n - off) with n by lia.
  rewrite <- (firstn_skipn (Z.to_nat off) l) at 4.
  f_equal.
  rewrite <- (firstn_skipn (Z.to_nat n) (skipn (Z.to_nat off) l)) at 2.
  f_equal. rewrite skipn_skipn. f_equal. lia.
Qed.

(** Two writes, the second directly behind the first, amount to one
    write of the concatenation. *)
Lemma setslice_adjacent {A} (l a b : list A) (off : Z) :
  0 <= off -> off + len a + len b <= len l ->
  setslice (setslice l off (off + len a) a)
    (off + len a) (off + len a + len b) b =
  setslice l off (off + len (a ++ b)) (a ++ b).
Proof.
  intros Hoff Hend.
  pose proof (len_nonneg a) as Ha. pose proof (len_nonneg b) as Hb.
  rewrite (setslice_inside (setslice l off (off + len a) a))
    by (rewrite ?len_setslice_inside; lia).
  rewrite (setslice_inside l (a ++ b)) by (rewrite ?len_app; lia).
  rewrite (setslice_inside l a) by lia.
  pose proof (length_firstn_inside l off ltac:(lia)) as Hp.
  set (P := firstn (Z.to_nat off) l) in *.
  set (R := skipn (Z.to_nat (off + len a)) l).
  rewrite (app_assoc P a R).
  rewrite (firstn_app_exact (P ++ a) R)
    by (rewrite length_app; unfold len; lia).
  rewrite (skipn_app_past (P ++ a) R _ (length b))
    by (rewrite length_app; unfold len; lia).
  subst R. rewrite skipn_skipn.
  replace (length b + Z.to_nat (off + len a))%nat
    with (Z.to_nat (off + len (a ++ b)))
    by (rewrite len_app; unfold len; lia).
  rewrite <- !app_assoc. reflexivity.
Qed.

(** The element at an index inside a written slice. *)
Lemma nth_error_setslice_inside {A} (l v : list A) (off i : Z) :
  0 <= off -> off + len v <= len l ->
  off <= i < off + len v ->
  nth_error (setslice l off (off + len v) v) (Z.to_nat i) =
  nth_error v (Z.to_nat (i - off)).
Proof.
  intros Hoff Hend Hi.
  rewrite setslice_inside by assumption.
  pose proof (length_firstn_inside l off ltac:(lia)) as Hp.
  rewrite nth_error_app2 by lia.
  rewrite Hp, nth_error_app1 by (unfold len in *; lia).
  f_equal. lia.
Qed.

(** The element at an index outside a written slice. *)
Lemma nth_error_setslice_outside {A} (l v : list A) (off i : Z) :
  0 <= off -> off + len v <= len l ->
  0 <= i -> i < off \/ off + len v <= i ->
  nth_error (setslice l off (off + len v) v) (Z.to_nat i) =
  nth_error l (Z.to_nat i).
Proof.
  intros Hoff Hend Hi0 Hi. pose proof (len_nonneg v) as Hv.
  rewrite setslice_inside by assumption.
  pose proof (length_firstn_inside l off ltac:(lia)) as Hp.
  destruct Hi as [Hi | Hi].
  - rewrite nth_error_app1 by lia. rewrite nth_error_firstn.
    destruct (Nat.ltb_spec (Z.to_nat i) (Z.to_nat off)); [reflexivity | lia].
  - rewrite nth_error_app2 by lia.
    rewrite nth_error_app2 by (unfold len in *; lia).
    rewrite nth_error_skipn. f_equal. unfold len in *. lia.
Qed.

End PyFacts.

(* ===================================================================== *)
(** ** InstructionPatch *)
(* ===================================================================== *)

Module InstructionPatchFacts.
Import patches spec PyFacts.

Section WithToolchain.
Context `{Toolchain}.

Lemma advance_advance c a b : advance (advance c a) b = advance c (a + b).
Proof. unfold advance. simpl. f_equal; lia. Qed.

Lemma advance_0 c : advance c 0 = c.
Proof. destruct c. unfold advance. simpl. f_equal; lia. Qed.

(** The check of the loop accepts an instruction exactly when its
    encoding decodes back to one instruction with the declared canonical
    text. *)
Lemma assemble_checked_inr address i encoding :
  assemble_checked address i = inr encoding <->
  assemble address i = inr encoding /\
  exists d, cs_disasm encoding address = inr [d] /\
            String.eqb (canonical_text d) (value i) = true.
Proof.
  unfold assemble_checked, bind, propagate, canonical_text, raise, ret.
  split.
  - destruct (assemble address i) as [e | bs]; [discriminate |].
    destruct (cs_disasm bs address) as [l | [| d [| d' ds]]] eqn:Hd;
      try discriminate.
    destruct (String.eqb _ (value i)) eqn:Ht; simpl; [| discriminate].
    intros [= <-]. split; [reflexivity |].
    exists d. split; [exact Hd | exact Ht].
  - intros [-> [d [-> Ht]]]. rewrite Ht. reflexivity.
Qed.

(** The exceptions of the check are those of the assembler and of the
    disassembler and the two assembly mismatches. *)
Lemma assemble_checked_inl address i e :
  assemble_checked address i = inl e ->
  is_LengthMismatch e = false /\ is_VerificationMismatch e = false.
Proof.
  unfold assemble_checked, bind, propagate, raise, ret.
  destruct (assemble address i) as [e' | bs].
  - intros [= <-]. split; reflexivity.
  - destruct (cs_disasm bs address) as [l | [| d [| d' ds]]].
    + intros [= <-]. split; reflexivity.
    + intros [= <-]. split; reflexivity.
    + destruct (negb _); [| discriminate].
      intros [= <-]. split; reflexivity.
    + intros [= <-]. split; reflexivity.
Qed.

Lemma assembled_replacements_cons address i rest chunks :
  assembled_replacements address (i :: rest) = Some chunks ->
  exists encoding chunks',
    chunks = encoding :: chunks' /\
    assemble_checked address i = inr encoding /\
    assembled_replacements (address + len encoding) rest = Some chunks'.
Proof.
  simpl. destruct (assemble address i) as [e | bs] eqn:Ha; [discriminate |].
  destruct (cs_disasm bs address) as [l | [| d [| d' ds]]] eqn:Hd;
    try discriminate.
  destruct (String.eqb (canonical_text d) (value i)) eqn:Ht; [| discriminate].
  destruct (assembled_replacements (address + len bs) rest) as [chunks' |]
    eqn:Hrest; [| discriminate].
  simpl. intros [= <-]. exists bs, chunks'. split; [reflexivity |].
  split; [| exact Hrest].
  apply assemble_checked_inr. split; [exact Ha |].
  exists d. split; [exact Hd | exact Ht].
Qed.

Lemma assembled_replacements_length address instrs : forall chunks,
  assembled_replacements address instrs = Some chunks ->
  length chunks = length instrs.
Proof.
  revert address. induction instrs as [| i rest IH]; intros address chunks Hs.
  - injection Hs as <-. reflexivity.
  - apply assembled_replacements_cons in Hs
      as (bs & chunks' & -> & _ & Hrest).
    simpl. f_equal. eapply IH. exact Hrest.
Qed.


(** When every replacement round-trips, the loop completes, and each of
    its cursors has advanced by the total of the encoded lengths. *)
Lemma patch_loop_cursor instrs : forall c data chunks,
  assembled_replacements (patched_instr_address c) instrs = Some chunks ->
  exists data',
    patch_loop instrs c data =
    (Returned, advance c (len (concat chunks)), data').
Proof.
  induction instrs as [| i rest IH]; intros c data chunks Hs.
  - injection Hs as <-. exists data. simpl. rewrite advance_0. reflexivity.
  - apply assembled_replacements_cons in Hs
      as (bs & chunks' & -> & Hc & Hrest).
    simpl. rewrite Hc.
    destruct (IH (advance c (len bs)) (setslice data (patch_file_offset c)
                (patch_file_offset c + len bs) bs) chunks' Hrest)
      as [data' Hloop].
    exists data'. rewrite Hloop, advance_advance, len_app. reflexivity.
Qed.

(** When moreover the region lies inside the buffer, the loop leaves the
    encodings, one behind the other, in the region. *)
Lemma patch_loop_inside instrs : forall c data chunks,
  assembled_replacements (patched_instr_address c) instrs = Some chunks ->
  0 <= patch_file_offset c ->
  patch_file_offset c + len (concat chunks) <= len data ->
  patch_loop instrs c data =
  (Returned, advance c (len (concat chunks)),
   setslice data (patch_file_offset c)
     (patch_file_offset c + len (concat chunks)) (concat chunks)).
Proof.
  induction instrs as [| i rest IH]; intros c data chunks Hs Hoff Hend.
  - injection Hs as <-. cbn [concat patch_loop] in *.
    change (len (@nil byte)) with 0 in *.
    rewrite advance_0, Z.add_0_r in *.
    rewrite setslice_empty_inside by lia. reflexivity.
  - apply assembled_replacements_cons in Hs
      as (bs & chunks' & -> & Hc & Hrest).
    simpl in Hend. rewrite len_app in Hend.
    pose proof (len_nonneg bs) as Hbs.
    pose proof (len_nonneg (concat chunks')) as Hcs.
    cbn [patch_loop concat]. rewrite Hc.
    rewrite (IH (advance c (len bs)) _ chunks' Hrest);
      cbn [advance patch_file_offset];
      rewrite ?len_setslice_inside; try lia.
    rewrite advance_advance, <- len_app.
    rewrite setslice_adjacent by lia.
    reflexivity.
Qed.

(** Conversely, a loop that completes has found every replacement to
    round-trip. *)
Lemma patch_loop_returned instrs : forall c data c' data',
  patch_loop instrs c data = (Returned, c', data') ->
  exists chunks,
    assembled_replacements (patched_instr_address c) instrs = Some chunks.
Proof.
  induction instrs as [| i rest IH]; intros c data c' data' Hloop.
  - exists []. reflexivity.
  - simpl in Hloop.
    destruct (assemble_checked (patched_instr_address c) i) as [e | bs] eqn:Hc;
      [discriminate |].
    apply IH in Hloop as [chunks' Hrest]. simpl in Hrest.
    apply assemble_checked_inr in Hc as (Ha & d & Hd & Ht).
    exists (bs :: chunks'). simpl. rewrite Ha, Hd, Ht, Hrest. reflexivity.
Qed.

(** An exception out of the loop is not one of the length check, nor one
    of the validation of the original instructions. *)
Lemma patch_loop_raised instrs : forall c data e c' data',
  patch_loop instrs c data = (Raised e, c', data') ->
  is_LengthMismatch e = false /\ is_VerificationMismatch e = false.
Proof.
  induction instrs as [| i rest IH]; intros c data e c' data' Hloop.
  - discriminate.
  - simpl in Hloop.
    destruct (assemble_checked (patched_instr_address c) i) as [e' | bs] eqn:Hc.
    + injection Hloop as -> _ _. eapply assemble_checked_inl. exact Hc.
    + eapply IH. exact Hloop.
Qed.

(** The comparison of the original instructions raises nothing but
    verification mismatches. *)
Lemma validate_orig_texts_raised pairs e :
  validate_orig_texts pairs = Raised e -> is_VerificationMismatch e = true.
Proof.
  induction pairs as [| [a x] rest IH]; simpl; [discriminate |].
  destruct (negb _); [| exact IH].
  intros [= <-]. reflexivity.
Qed.

Lemma compare_orig_raised actual orig e :
  compare_orig actual orig = Raised e -> is_VerificationMismatch e = true.
Proof.
  unfold compare_orig. destruct (negb _).
  - intros [= <-]. reflexivity.
  - apply validate_orig_texts_raised.
Qed.

(** The validation raises the exception of the disassembler, or a
    verification mismatch on what was disassembled. *)
Lemma validate_orig_raised address offset orig data e :
  validate_orig address offset orig data = Raised e ->
  (exists l, actual_orig_instructions address offset orig data = inl l /\
             e = LibraryError l) \/
  (exists actual,
     actual_orig_instructions address offset orig data = inr actual /\
     compare_orig actual orig = Raised e /\
     is_VerificationMismatch e = true).
Proof.
  unfold validate_orig.
  destruct (actual_orig_instructions address offset orig data)
    as [l | actual].
  - intros [= <-]. left. exists l. split; reflexivity.
  - intros Hc. right. exists actual.
    split; [reflexivity |]. split; [exact Hc |].
    eapply compare_orig_raised. exact Hc.
Qed.

(** Neither is a length mismatch, an assembly mismatch or the invalid
    offset error. *)
Lemma validate_orig_raised_kind address offset orig data e :
  validate_orig address offset orig data = Raised e ->
  is_LengthMismatch e = false /\ is_AssemblyMismatch e = false /\
  is_OutOfBounds e = false.
Proof.
  intros Hv.
  destruct (validate_orig_raised _ _ _ _ _ Hv)
    as [(l & _ & ->) | (actual & _ & _ & Hver)].
  - repeat split.
  - destruct e as [? | []]; try discriminate; repeat split.
Qed.

Lemma validate_orig_texts_returned pairs :
  validate_orig_texts pairs = Returned <->
  Forall (fun p => actual_orig_instruction_str (fst p) = value (snd p)) pairs.
Proof.
  induction pairs as [| [a x] rest IH]; simpl.
  - split; [constructor | reflexivity].
  - destruct (String.eqb_spec (actual_orig_instruction_str a) (value x))
      as [Heq | Hne]; simpl.
    + rewrite IH. split.
      * intros Hrest. constructor; assumption.
      * intros Hall. inversion Hall. assumption.
    + split; [discriminate |].
      intros Hall. inversion Hall. contradiction.
Qed.

(** The comparison passes exactly when as many instructions were
    disassembled as are declared and the text of each, as line 109
    builds it, is the declared one. *)
Lemma compare_orig_returned actual orig :
  compare_orig actual orig = Returned <->
  length actual = length orig /\
  Forall (fun p => actual_orig_instruction_str (fst p) = value (snd p))
    (combine actual orig).
Proof.
  unfold compare_orig.
  destruct (Nat.eqb_spec (length actual) (length orig)) as [Heq | Hne]; simpl.
  - rewrite validate_orig_texts_returned. tauto.
  - split; [discriminate | tauto].
Qed.

(** The validation passes exactly when the disassembler returns and the
    comparison passes. *)
Lemma validate_orig_returned address offset orig data :
  validate_orig address offset orig data = Returned <->
  exists actual,
    actual_orig_instructions address offset orig data = inr actual /\
    length actual = length orig /\
    Forall (fun p => actual_orig_instruction_str (fst p) = value (snd p))
      (combine actual orig).
Proof.
  unfold validate_orig.
  destruct (actual_orig_instructions address offset orig data)
    as [l | actual].
  - split; [discriminate |]. intros (actual & [=] & _).
  - rewrite compare_orig_returned. split.
    + intros Hok. exists actual. split; [reflexivity | exact Hok].
    + intros (actual' & [= <-] & Hok). exact Hok.
Qed.

(** A failed validation ends the call before anything is written. *)
Lemma validation_failure_keeps_buffer
  function_name address orig patched expected_length path base data offset e :
  try_macho_file_offset path address base = inr offset ->
  validate_orig address offset orig data = Raised e ->
  apply (InstructionPatch function_name address orig patched expected_length)
    path base data = (Raised e, data).
Proof.
  intros Hoff Hv.
  simpl. unfold InstructionPatch_apply. rewrite Hoff, Hv. reflexivity.
Qed.

(** Whenever the count of the disassembled instructions, or a text as
    line 109 builds it, differs from what is declared, the call raises a
    verification mismatch and the buffer is as before. *)
Lemma mismatch_is_rejected_before_writing
  function_name address orig patched expected_length path base data offset
  actual :
  try_macho_file_offset path address base = inr offset ->
  actual_orig_instructions address offset orig data = inr actual ->
  ~ (length actual = length orig /\
     Forall (fun p => actual_orig_instruction_str (fst p) = value (snd p))
       (combine actual orig)) ->
  exists e,
    apply (InstructionPatch function_name address orig patched expected_length)
      path base data = (Raised e, data)
    /\ is_VerificationMismatch e = true.
Proof.
  intros Hoff Hactual Hbad.
  destruct (validate_orig address offset orig data) as [| e] eqn:Hv.
  - apply validate_orig_returned in Hv as (actual' & Hactual' & Hok).
    rewrite Hactual in Hactual'. injection Hactual' as <-. contradiction.
  - exists e. split.
    + eapply validation_failure_keeps_buffer; eassumption.
    + destruct (validate_orig_raised _ _ _ _ _ Hv)
        as [(l & Hl & _) | (_ & _ & _ & Hver)]; [congruence | exact Hver].
Qed.

(** The validation fails when the number of disassembled instructions is
    not the declared one. *)
Lemma validate_orig_count address offset orig data actual :
  actual_orig_instructions address offset orig data = inr actual ->
  length actual <> length orig ->
  validate_orig address offset orig data =
  Raised (ValueError (ExpectedToFindInstructions (length orig)
                        (length actual))).
Proof.
  intros Hactual Hn. unfold validate_orig, compare_orig. rewrite Hactual.
  destruct (Nat.eqb_spec (length actual) (length orig));
    [contradiction | reflexivity].
Qed.

(** An exception of the disassembler on the region of the original
    instructions leaves the call as it is, before anything is written;
    it is no verification mismatch. *)
Lemma disassembler_exception_leaves_apply
  function_name address orig patched expected_length path base data offset l :
  try_macho_file_offset path address base = inr offset ->
  actual_orig_instructions address offset orig data = inl l ->
  apply (InstructionPatch function_name address orig patched expected_length)
    path base data = (Raised (LibraryError l), data).
Proof.
  intros Hoff Hl.
  apply validation_failure_keeps_buffer with (offset := offset);
    [exact Hoff |].
  unfold validate_orig. rewrite Hl. reflexivity.
Qed.

(** [InstructionPatch.apply], step by step. *)
Lemma apply_InstructionPatch
  function_name address orig patched expected_length path base data :
  apply (InstructionPatch function_name address orig patched expected_length)
    path base data =
  match try_macho_file_offset path address base with
  | inl e => (Raised (LibraryError e), data)
  | inr offset =>
      match validate_orig address offset orig data with
      | Raised e => (Raised e, data)
      | Returned =>
          match patch_loop patched (start_cursor address offset) data with
          | (Raised e, _, data') => (Raised e, data')
          | (Returned, c, data') =>
              (check_expected_length expected_length (patch_length c), data')
          end
      end
  end.
Proof. reflexivity. Qed.



(** The check of lines 141-142, once the validation has passed and every
    replacement has round-tripped: a declared total length other than 0
    is compared with the accumulated length of the encodings, and the
    length mismatch reports both; a declared length of 0 is false in the
    condition of line 141 and is compared with nothing. *)
Lemma declared_length_is_enforced
  function_name address orig patched n path base data offset chunks :
  try_macho_file_offset path address base = inr offset ->
  validate_orig address offset orig data = Returned ->
  assembled_replacements address patched = Some chunks ->
  fst (apply (InstructionPatch function_name address orig patched (Some n))
         path base data) =
  if n =? 0 then Returned
  else if len (concat chunks) =? n then Returned
  else Raised (ValueError (ExpectedPatchOfBytes n (len (concat chunks)))).
Proof.
  intros Hoff Hv Hs.
  destruct (patch_loop_cursor patched (start_cursor address offset) data
              chunks Hs) as [data' Hloop].
  rewrite apply_InstructionPatch, Hoff, Hv, Hloop.
  cbn [advance start_cursor patch_length fst]. rewrite Z.add_0_l.
  unfold check_expected_length, truthy.
  destruct (n =? 0); [reflexivity |].
  destruct (len (concat chunks) =? n); reflexivity.
Qed.

(** C10 (amended): when the length check of an [InstructionPatch] fails,
    the whole replacement loop has completed before: every replacement
    round-tripped, the buffer at the moment of the failure is the one the
    loop left, every encoding written, and it is the very buffer the
    same patch without a declared length returns with.  When the region
    of the encodings lies inside the buffer, that buffer is the one
    before the call with the region overwritten by the encodings, so it
    differs from the buffer before the call at most inside the region,
    and only where an encoding differs from the bytes it replaces. *)
Theorem length_mismatch_after_the_loop
  function_name address orig patched expected_length path base data e data' :
  apply (InstructionPatch function_name address orig patched expected_length)
    path base data = (Raised e, data') ->
  is_LengthMismatch e = true ->
  exists offset chunks n,
    try_macho_file_offset path address base = inr offset /\
    assembled_replacements address patched = Some chunks /\
    patch_loop patched (start_cursor address offset) data =
      (Returned, advance (start_cursor address offset) (len (concat chunks)),
       data') /\
    expected_length = Some n /\
    n <> len (concat chunks) /\
    e = ValueError (ExpectedPatchOfBytes n (len (concat chunks))) /\
    apply (InstructionPatch function_name address orig patched None)
      path base data = (Returned, data') /\
    (0 <= offset -> offset + len (concat chunks) <= len data ->
     data' = firstn (Z.to_nat offset) data ++ concat chunks
             ++ skipn (Z.to_nat (offset + len (concat chunks))) data /\
     len data' = len data /\
     getslice data' offset (offset + len (concat chunks)) = concat chunks /\
     (getslice data offset (offset + len (concat chunks)) = concat chunks ->
      data' = data)).
Proof.
  rewrite !apply_InstructionPatch.
  destruct (try_macho_file_offset path address base) as [e0 | offset];
    [intros [= <- _]; discriminate |].
  destruct (validate_orig address offset orig data) as [| e0] eqn:Hv.
  2:{ intros [= <- _] He. apply validate_orig_raised_kind in Hv as [Hl _].
      congruence. }
  destruct (patch_loop patched (start_cursor address offset) data)
    as [[[| e0] c] d] eqn:Hloop.
  2:{ intros [= <- _] He. apply patch_loop_raised in Hloop as [Hl _].
      congruence. }
  destruct (patch_loop_returned _ _ _ _ _ Hloop) as [chunks Hs].
  cbn [start_cursor patched_instr_address] in Hs.
  destruct (patch_loop_cursor patched (start_cursor address offset) data
              chunks Hs) as [d2 Hloop2].
  rewrite Hloop in Hloop2. injection Hloop2 as -> ->.
  cbn [advance start_cursor patch_length]. rewrite Z.add_0_l.
  unfold check_expected_length.
  destruct expected_length as [n |]; [| discriminate].
  destruct (truthy (Some n) && negb (len (concat chunks) =? n)) eqn:Hc;
    [| discriminate].
  intros [= <- <-] _.
  apply andb_true_iff in Hc as [_ Hne].
  apply negb_true_iff, Z.eqb_neq in Hne.
  exists offset, chunks, n.
  repeat (split; [first [reflexivity | assumption | congruence] |]).
  intros Hlo Hhi.
  rewrite (patch_loop_inside patched (start_cursor address offset) data
             chunks Hs Hlo Hhi) in Hloop.
  injection Hloop as <-.
  cbn [start_cursor patch_file_offset].
  split; [apply setslice_inside; assumption |].
  split; [apply len_setslice_inside; assumption |].
  split; [apply getslice_setslice_inside; assumption |].
  intros Hsame. apply setslice_same_inside; assumption.
Qed.

End WithToolchain.

(** *** The engine on concrete buffers

    The image [iBSS] is a raw binary loaded at 0x84000000. *)

#[local] Existing Instance Thumb.toolchain.



(** Without a declared length, a patch whose offset lies behind the end
    of the buffer returns too, but its bytes land at the end of the
    buffer, which grows, and not at the resolved offset. *)
Example replacement_behind_the_end :
  try_macho_file_offset "iBSS" 0x84000008 Thumb.iBSS_base = inr 8 /\
  apply (InstructionPatch "f" 0x84000008 [] [Thumb.thumb "bx lr"] None)
    "iBSS" Thumb.iBSS_base [x00; x20; x00; x20]
  = (Returned, [x00; x20; x00; x20; x70; x47]).
Proof. repeat split. Qed.

(** The scenario of the specification: a declared length of 4 and
    replacements of 2+2 bytes, then of 2+4 bytes. *)
Lemma declared_length_of_the_scenario :
  fst (apply (InstructionPatch "f" 0x84000000 []
                [Thumb.thumb "bx lr"; Thumb.thumb "nop"] (Some 4))
         "iBSS" Thumb.iBSS_base [x00; x20; x00; x20; x00; x20]) = Returned /\
  fst (apply (InstructionPatch "f" 0x84000000 []
                [Thumb.thumb "bx lr"; Thumb.thumb "nop.w"] (Some 4))
         "iBSS" Thumb.iBSS_base [x00; x20; x00; x20; x00; x20])
  = Raised (ValueError (ExpectedPatchOfBytes 4 6)).
Proof.
  split.
  - exact (declared_length_is_enforced "f" 0x84000000 []
             [Thumb.thumb "bx lr"; Thumb.thumb "nop"] 4 "iBSS" Thumb.iBSS_base
             [x00; x20; x00; x20; x00; x20] 0 [[x70; x47]; [x00; xbf]]
             eq_refl eq_refl eq_refl).
  - exact (declared_length_is_enforced "f" 0x84000000 []
             [Thumb.thumb "bx lr"; Thumb.thumb "nop.w"] 4 "iBSS" Thumb.iBSS_base
             [x00; x20; x00; x20; x00; x20] 0
             [[x70; x47]; [xaf; xf3; x00; x80]]
             eq_refl eq_refl eq_refl).
Defined.

(** C5: the patch declares a total length of 0 and its one replacement
    assembles to 2 bytes: the lengths differ, and [apply] returns, the
    replacement written, because line 141 tests the truth value of the
    declared length before it compares.  The same patch with a declared
    length of 4 raises the length mismatch. *)
Theorem declared_length_zero_is_not_checked :
  assembled_replacements 0x84000000 [Thumb.thumb "bx lr"]
    = Some [[x70; x47]] /\
  len (concat [[x70; x47]]) <> 0 /\
  apply (InstructionPatch "f" 0x84000000 [] [Thumb.thumb "bx lr"] (Some 0))
    "iBSS" Thumb.iBSS_base [x00; x20; x00; x20]
  = (Returned, [x70; x47; x00; x20]) /\
  apply (InstructionPatch "f" 0x84000000 [] [Thumb.thumb "bx lr"] (Some 4))
    "iBSS" Thumb.iBSS_base [x00; x20; x00; x20]
  = (Raised (ValueError (ExpectedPatchOfBytes 4 2)), [x70; x47; x00; x20]).
Proof. repeat split. discriminate. Qed.

Lemma length_mismatch_after_the_loop_witness :
  exists chunks,
    assembled_replacements 0x84000000
      [Thumb.thumb "bx lr"; Thumb.thumb "nop.w"] = Some chunks /\
    apply (InstructionPatch "f" 0x84000000 []
             [Thumb.thumb "bx lr"; Thumb.thumb "nop.w"] None)
      "iBSS" Thumb.iBSS_base [x00; x20; x00; x20; x00; x20]
    = (Returned, [x70; x47; xaf; xf3; x00; x80]).
Proof.
  destruct (length_mismatch_after_the_loop "f" 0x84000000 []
              [Thumb.thumb "bx lr"; Thumb.thumb "nop.w"] (Some 4)
              "iBSS" Thumb.iBSS_base [x00; x20; x00; x20; x00; x20]
              (ValueError (ExpectedPatchOfBytes 4 6))
              [x70; x47; xaf; xf3; x00; x80])
    as (offset & chunks & n & _ & Hs & _ & _ & _ & _ & Hnone & _).
  - reflexivity.
  - reflexivity.
  - exists chunks. split; [exact Hs | exact Hnone].
Defined.

(** The replacement is the instruction that is already there, and the
    declared length is wrong: the length check fails, and the buffer is
    as it was before the call. *)
Lemma length_mismatch_may_keep_buffer :
  apply (InstructionPatch "f" 0x84000000 [] [Thumb.thumb "nop"] (Some 4))
    "iBSS" Thumb.iBSS_base [x00; xbf; x70; x47]
  = (Raised (ValueError (ExpectedPatchOfBytes 4 2)), [x00; xbf; x70; x47]) /\
  is_LengthMismatch (ValueError (ExpectedPatchOfBytes 4 2)) = true.
Proof. split; reflexivity. Qed.

(** *** The text compared with a declared original instruction *)

Lemma append_space_neq (m : string) : (m ++ " ")%string <> m.
Proof.
  induction m as [| a m IH]; simpl.
  - discriminate.
  - intros [= Hm]. exact (IH Hm).
Qed.

(** For an instruction without operands, the text line 109 builds ends
    in a space and is never the canonical text. *)
Lemma operandless_text_is_not_canonical (d : CsInsn) :
  op_str d = EmptyString ->
  actual_orig_instruction_str d = (mnemonic d ++ " ")%string /\
  canonical_text d = mnemonic d /\
  actual_orig_instruction_str d <> canonical_text d.
Proof.
  intros Ho. unfold actual_orig_instruction_str, canonical_text.
  rewrite Ho. simpl. repeat split. apply append_space_neq.
Qed.

(** With operands, the two texts agree. *)
Lemma operand_text_is_canonical (d : CsInsn) :
  op_str d <> EmptyString ->
  actual_orig_instruction_str d = canonical_text d.
Proof.
  intros Ho. unfold actual_orig_instruction_str, canonical_text.
  destruct (String.eqb_spec (op_str d) EmptyString); [contradiction |].
  reflexivity.
Qed.

(** Whatever the disassembler, a declared original instruction that is
    the canonical text of an instruction without operands found in its
    place makes the call raise. *)
Lemma canonical_operandless_original_is_rejected `{Toolchain}
  function_name address orig patched expected_length path base data offset
  actual d x :
  try_macho_file_offset path address base = inr offset ->
  actual_orig_instructions address offset orig data = inr actual ->
  In (d, x) (combine actual orig) ->
  op_str d = EmptyString ->
  value x = canonical_text d ->
  exists e,
    apply (InstructionPatch function_name address orig patched expected_length)
      path base data = (Raised e, data)
    /\ is_VerificationMismatch e = true.
Proof.
  intros Hoff Hactual Hin Ho Hx.
  apply mismatch_is_rejected_before_writing
    with (offset := offset) (actual := actual);
    [exact Hoff | exact Hactual |].
  intros [_ Hall]. rewrite Forall_forall in Hall.
  specialize (Hall (d, x) Hin). cbn [fst snd] in Hall.
  rewrite Hx in Hall.
  destruct (operandless_text_is_not_canonical d Ho) as (_ & _ & Hne).
  exact (Hne Hall).
Qed.

(** C6: the buffer holds [nop] at the patched address and the patch
    declares the original instruction [nop], which is the canonical text
    of what the disassembler reports; the validation compares it with the
    text [nop] followed by a space and raises. *)
Theorem operandless_original_is_rejected :
  actual_orig_instructions 0x84000002 2 [Thumb.thumb "nop"]
    [x00; x20; x00; xbf; x01; x20] = inr [Thumb.insn "nop" EmptyString] /\
  canonical_text (Thumb.insn "nop" EmptyString) = value (Thumb.thumb "nop") /\
  apply (InstructionPatch "f" 0x84000002 [Thumb.thumb "nop"]
           [Thumb.thumb "bx lr"] None)
    "iBSS" Thumb.iBSS_base [x00; x20; x00; xbf; x01; x20]
  = (Raised (ValueError (ExpectedToDisassemble "nop" "nop ")),
     [x00; x20; x00; xbf; x01; x20]).
Proof. repeat split. Qed.

(** C1: the buffer holds [nop] at the patched address and the patch
    declares an original instruction whose text is [nop] followed by a
    space, which is not the canonical text of what the disassembler
    reports; the validation passes and the replacement is written. *)
Theorem trailing_space_original_is_accepted :
  actual_orig_instructions 0x84000002 2 [Thumb.thumb "nop "]
    [x00; x20; x00; xbf; x01; x20] = inr [Thumb.insn "nop" EmptyString] /\
  canonical_text (Thumb.insn "nop" EmptyString)
    <> value (Thumb.thumb "nop ") /\
  apply (InstructionPatch "f" 0x84000002 [Thumb.thumb "nop "]
           [Thumb.thumb "bx lr"] None)
    "iBSS" Thumb.iBSS_base [x00; x20; x00; xbf; x01; x20]
  = (Returned, [x00; x20; x70; x47; x01; x20]).
Proof. repeat split. discriminate. Qed.

End InstructionPatchFacts.

(* ===================================================================== *)
(** ** BlobPatch and PatchSet *)
(* ===================================================================== *)

Module BufferPatchFacts.
Import patches spec PyFacts.

Section WithToolchain.
Context `{Toolchain}.

(** [BlobPatch.apply], step by step: the offset that is checked and
    written is [address - image_base_address], whatever the lookup in
    the container returned. *)
Lemma apply_BlobPatch address new_content path base data :
  apply (BlobPatch address new_content) path base data =
  match try_macho_file_offset path address base with
  | inl e => (Raised (LibraryError e), data)
  | inr _ =>
      if (address - base <? 0) || (address - base >=? len data) then
        (Raised (ValueError (InvalidOffset (address - base))), data)
      else
        (Returned,
         setslice data (address - base) (address - base + len new_content)
           new_content)
  end.
Proof. reflexivity. Qed.

(** A [BlobPatch] whose offset lies inside the buffer is written. *)
Lemma apply_BlobPatch_inside address new_content path base data resolved :
  try_macho_file_offset path address base = inr resolved ->
  0 <= address - base < len data ->
  apply (BlobPatch address new_content) path base data =
  (Returned,
   setslice data (address - base) (address - base + len new_content)
     new_content).
Proof.
  intros Hres Hin. rewrite apply_BlobPatch, Hres.
  destruct (Z.ltb_spec (address - base) 0); [lia |].
  destruct (Z.geb_spec (address - base) (len data)); [lia |].
  reflexivity.
Qed.


(** *** PatchSet *)

Lemma for_each_patch_cons {P : Type}
  (f : P -> Path -> Z -> bytearray -> outcome * bytearray)
  path base patch rest data :
  for_each_patch f path base (patch :: rest) data =
  let call := {| callee := patch; call_path := path; call_base := base;
                 call_data := data |} in
  match f patch path base data with
  | (Returned, data') =>
      (call :: fst (for_each_patch f path base rest data'),
       snd (for_each_patch f path base rest data'))
  | (Raised e, data') => ([call], (Raised e, data'))
  end.
Proof.
  cbn [for_each_patch].
  destruct (f patch path base data) as [[| e] data']; [| reflexivity].
  destruct (for_each_patch f path base rest data'). reflexivity.
Qed.

(** The calls of the loop are threaded on one buffer. *)
Lemma for_each_patch_threaded {P : Type}
  (f : P -> Path -> Z -> bytearray -> outcome * bytearray)
  path base patches : forall data,
  Threaded f data (fst (for_each_patch f path base patches data))
    (snd (for_each_patch f path base patches data)).
Proof.
  induction patches as [| patch rest IH]; intros data.
  - constructor.
  - rewrite for_each_patch_cons. cbv zeta.
    destruct (f patch path base data) as [[| e] data'] eqn:Hcall; cbn [fst snd].
    + apply (Threaded_next f {| callee := patch; call_path := path;
                                call_base := base; call_data := data |}
               data').
      * exact Hcall.
      * apply IH.
    + apply (Threaded_raise f {| callee := patch; call_path := path;
                                 call_base := base; call_data := data |}).
      exact Hcall.
Qed.

(** The loop calls the members in declaration order, each with the path
    and the base address it was given itself; it stops behind a member
    that raises, and when it returns it has called every member once. *)
Lemma for_each_patch_calls {P : Type}
  (f : P -> Path -> Z -> bytearray -> outcome * bytearray)
  path base patches : forall data,
  let calls := fst (for_each_patch f path base patches data) in
  let r := snd (for_each_patch f path base patches data) in
  Forall (fun c => call_path c = path /\ call_base c = base) calls /\
  map callee calls = firstn (length calls) patches /\
  (fst r = Returned -> map callee calls = patches).
Proof.
  induction patches as [| patch rest IH]; intros data.
  - cbn. repeat split; constructor.
  - rewrite for_each_patch_cons. cbv zeta.
    destruct (f patch path base data) as [[| e] data'] eqn:Hcall;
      cbn [fst snd].
    + destruct (IH data') as (Hargs & Hpre & Hall).
      cbv zeta in Hargs, Hpre, Hall.
      split; [| split].
      * constructor; [split; reflexivity | exact Hargs].
      * cbn [map callee length firstn]. f_equal. exact Hpre.
      * intros Hr. cbn [map callee]. f_equal. exact (Hall Hr).
    + split; [| split].
      * constructor; [split; reflexivity | constructor].
      * reflexivity.
      * intros [=].
Qed.

Lemma apply_PatchSet name patches path base data :
  apply (PatchSet name patches) path base data =
  snd (for_each_patch apply path base patches data).
Proof. reflexivity. Qed.

(** C7: the calls [PatchSet.apply] makes are calls of its members in
    declaration order, all with the path and the base address the set was
    given, threaded on the one buffer: each member finds the buffer as
    the member before left it, and only a member that raises ends the
    sequence early; when the set returns, every member has been called
    exactly once.  Consequently, for two member [BlobPatch]es that write
    inside the buffer, the set returns, the range of the second patch
    holds the payload of the second patch, overlap included, and the rest
    of the range of the first holds the payload of the first. *)
Theorem PatchSet_applies_members_in_order name patches path base data :
  Threaded apply data (PatchSet_calls patches path base data)
    (apply (PatchSet name patches) path base data) /\
  Forall (fun c => call_path c = path /\ call_base c = base)
    (PatchSet_calls patches path base data) /\
  map callee (PatchSet_calls patches path base data) =
    firstn (length (PatchSet_calls patches path base data)) patches /\
  (fst (apply (PatchSet name patches) path base data) = Returned ->
   map callee (PatchSet_calls patches path base data) = patches) /\
  (forall a1 c1 a2 c2 r1 r2,
     patches = [BlobPatch a1 c1; BlobPatch a2 c2] ->
     try_macho_file_offset path a1 base = inr r1 ->
     try_macho_file_offset path a2 base = inr r2 ->
     0 <= a1 - base < len data -> a1 - base + len c1 <= len data ->
     0 <= a2 - base < len data -> a2 - base + len c2 <= len data ->
     exists data',
       apply (PatchSet name patches) path base data = (Returned, data') /\
       len data' = len data /\
       getslice data' (a2 - base) (a2 - base + len c2) = c2 /\
       (forall i, a2 - base <= i < a2 - base + len c2 ->
          nth_error data' (Z.to_nat i)
          = nth_error c2 (Z.to_nat (i - (a2 - base)))) /\
       (forall i, a1 - base <= i < a1 - base + len c1 ->
          ~ (a2 - base <= i < a2 - base + len c2) ->
          nth_error data' (Z.to_nat i)
          = nth_error c1 (Z.to_nat (i - (a1 - base))))).
Proof.
  rewrite apply_PatchSet. unfold PatchSet_calls.
  pose proof (for_each_patch_calls apply path base patches data)
    as (Hargs & Hpre & Hall).
  split; [apply for_each_patch_threaded |].
  split; [exact Hargs |]. split; [exact Hpre |]. split; [exact Hall |].
  intros a1 c1 a2 c2 r1 r2 -> Hr1 Hr2 Hin1 Hend1 Hin2 Hend2.
  set (data1 := setslice data (a1 - base) (a1 - base + len c1) c1).
  assert (Hlen1 : len data1 = len data)
    by (apply len_setslice_inside; lia).
  exists (setslice data1 (a2 - base) (a2 - base + len c2) c2).
  rewrite for_each_patch_cons. cbv zeta.
  rewrite (apply_BlobPatch_inside a1 c1 path base data r1 Hr1 Hin1).
  fold data1. cbn [fst snd].
  rewrite for_each_patch_cons. cbv zeta.
  rewrite (apply_BlobPatch_inside a2 c2 path base data1 r2 Hr2)
    by (rewrite Hlen1; exact Hin2).
  cbn [fst snd for_each_patch].
  split; [reflexivity |].
  split; [rewrite len_setslice_inside; lia |].
  split; [apply getslice_setslice_inside; lia |].
  split.
  - intros i Hi. apply nth_error_setslice_inside; lia.
  - intros i Hi1 Hi2.
    rewrite nth_error_setslice_outside by lia.
    apply nth_error_setslice_inside; lia.
Qed.

End WithToolchain.

#[local] Existing Instance Thumb.toolchain.

Lemma PatchSet_applies_members_in_order_witness :
  exists data',
    apply (PatchSet "overlap" [BlobPatch 0x84000000 [xaa; xbb; xcc];
                               BlobPatch 0x84000002 [xdd; xee]])
      "iBSS" 0x84000000 [x00; x20; x00; x20; x00; x20] = (Returned, data') /\
    getslice data' 2 4 = [xdd; xee] /\
    nth_error data' 2 = Some xdd.
Proof.
  destruct (PatchSet_applies_members_in_order "overlap"
              [BlobPatch 0x84000000 [xaa; xbb; xcc];
               BlobPatch 0x84000002 [xdd; xee]]
              "iBSS" 0x84000000 [x00; x20; x00; x20; x00; x20])
    as (_ & _ & _ & _ & Hblobs).
  destruct (Hblobs 0x84000000 [xaa; xbb; xcc] 0x84000002 [xdd; xee] 0 2)
    as (d & Happ & _ & Hslice & Hnth & _);
    try reflexivity; try (vm_compute; intuition discriminate).
  exists d. split; [exact Happ |]. split; [exact Hslice |].
  apply (Hnth 2). vm_compute. intuition discriminate.
Defined.

(** The two patches overlap in the byte at the offset 2, which ends up
    with the first byte of the second payload. *)
Example overlapping_blob_patches :
  apply (PatchSet "overlap" [BlobPatch 0x84000000 [xaa; xbb; xcc];
                             BlobPatch 0x84000002 [xdd; xee]])
    "iBSS" 0x84000000 [x00; x20; x00; x20; x00; x20]
  = (Returned, [xaa; xbb; xdd; xee; x00; x20]) /\
  map callee (PatchSet_calls [BlobPatch 0x84000000 [xaa; xbb; xcc];
                              BlobPatch 0x84000002 [xdd; xee]]
                "iBSS" 0x84000000 [x00; x20; x00; x20; x00; x20])
  = [BlobPatch 0x84000000 [xaa; xbb; xcc]; BlobPatch 0x84000002 [xdd; xee]] /\
  map call_data (PatchSet_calls [BlobPatch 0x84000000 [xaa; xbb; xcc];
                                 BlobPatch 0x84000002 [xdd; xee]]
                   "iBSS" 0x84000000 [x00; x20; x00; x20; x00; x20])
  = [[x00; x20; x00; x20; x00; x20]; [xaa; xbb; xcc; x20; x00; x20]].
Proof. repeat split. Qed.

(** A member that raises ends the set: the member behind it is not
    called, and the buffer keeps what the members before it wrote. *)
Example PatchSet_stops_at_a_failure :
  apply (PatchSet "stops" [BlobPatch 0x84000000 [xaa];
                           BlobPatch 0x84000009 [xbb];
                           BlobPatch 0x84000001 [xcc]])
    "iBSS" 0x84000000 [x00; x20]
  = (Raised (ValueError (InvalidOffset 9)), [xaa; x20]) /\
  map callee (PatchSet_calls [BlobPatch 0x84000000 [xaa];
                              BlobPatch 0x84000009 [xbb];
                              BlobPatch 0x84000001 [xcc]]
                "iBSS" 0x84000000 [x00; x20])
  = [BlobPatch 0x84000000 [xaa]; BlobPatch 0x84000009 [xbb]].
Proof. repeat split. Qed.



(** C4: the container [macho] maps the address 0x1004 to the file offset
    20; [BlobPatch.apply] writes at [address - image_base_address], here
    the offset 4, and leaves the bytes at the offset 20 as they are.
    [InstructionPatch.apply] on the same container writes at 20. *)
Theorem blob_patch_ignores_macho_offset :
  macho_file_offset "macho" 0x1004 = inr 20 /\
  try_macho_file_offset "macho" 0x1004 0x1000 = inr 20 /\
  apply (BlobPatch 0x1004 [x70; x47]) "macho" 0x1000 (repeat x00 24)
  = (Returned, repeat x00 4 ++ [x70; x47] ++ repeat x00 18) /\
  apply (InstructionPatch "f" 0x1004 [] [Thumb.thumb "bx lr"] None)
    "macho" 0x1000 (repeat x00 24)
  = (Returned, repeat x00 20 ++ [x70; x47] ++ repeat x00 2).
Proof. repeat split. Qed.

End BufferPatchFacts.

(* ===================================================================== *)
(** ** DmgPatchSet *)
(* ===================================================================== *)

Module DmgPatchSetFacts.
Import dmg_patches spec PyFacts.

Section WithHost.
Context {OS IpswPatcherConfig : Type} `{Host OS}.

Lemma setslice_whole {A} (l v : list A) : setslice l 0 (len l) v = v.
Proof.
  pose proof (len_nonneg l) as Hl.
  unfold setslice. rewrite !adjust_index_inside by lia.
  rewrite Z.max_r by lia. simpl.
  rewrite skipn_all2 by (unfold len; lia). apply app_nil_r.
Qed.

(** The loop over the members: the members are applied in declaration
    order until one raises. *)
Lemma apply_each_spec (patches : list (DmgPatch OS IpswPatcherConfig))
  config root : forall os,
  exists k failure os',
    apply_each patches config root os =
    (os', member_events root patches k failure, member_result failure) /\
    member_position patches k failure.
Proof.
  induction patches as [| patch rest IH]; intros os.
  - exists 0%nat, None, os. split; reflexivity.
  - cbn [apply_each]. unfold mbind at 1, call_apply at 1.
    destruct (dmg_apply patch config root os) as [os1 [| e]] eqn:Hcall.
    + cbn [of_outcome].
      destruct (IH os1) as (k & failure & os' & Heach & Hpos).
      rewrite Heach.
      exists (S k), failure, os'. split; [reflexivity |].
      destruct failure as [[p e] |]; cbn in *; [exact Hpos | congruence].
    + exists 0%nat, (Some (patch, e)), os1. split; reflexivity.
Qed.

(** The mount scope: when the attach fails, the body does not run and
    nothing is detached; when it succeeds, the body runs and the detach
    follows, however the body ended. *)
Lemma mount_dmg_spec {A} (path : Path) (body : Path -> M OS IpswPatcherConfig A)
  os :
  exists os' mount_point,
    (exists e,
       _mount_dmg path body os =
       (os', [Ran (hdiutil_attach mount_point path) (Raised e)], inl e)) \/
    (exists os1 os2 evs r o_detach,
       body mount_point os1 = (os2, evs, r) /\
       _mount_dmg path body os =
       (os',
        Ran (hdiutil_attach mount_point path) Returned
        :: evs ++ [Ran (hdiutil_detach mount_point) o_detach],
        match o_detach with
        | Raised e => inl e
        | Returned => r
        end)).
Proof.
  unfold _mount_dmg, with_TemporaryDirectory.
  destruct (TemporaryDirectory_enter os) as [os0 d].
  set (mount_point := joinpath d "dmg_mount_point").
  unfold mbind, run, try_finally.
  destruct (run_and_check (hdiutil_attach mount_point path) os0)
    as [os1 [| e]] eqn:Hattach; cbn [of_outcome].
  - destruct (body mount_point os1) as [[os2 evs] r] eqn:Hbody.
    destruct (run_and_check (hdiutil_detach mount_point) os2)
      as [os3 o_detach] eqn:Hdetach.
    exists (TemporaryDirectory_exit d os3), mount_point. right.
    exists os1, os2, evs, r, o_detach. split; [exact Hbody |].
    destruct o_detach; reflexivity.
  - exists (TemporaryDirectory_exit d os1), mount_point. left.
    exists e. reflexivity.
Qed.

Lemma mbind_modify {A} (f : OS -> OS)
  (k : unit -> M OS IpswPatcherConfig A) os :
  mbind (modify OS IpswPatcherConfig f) k os = k tt (f os).
Proof.
  unfold mbind, modify. destruct (k tt (f os)) as [[os2 evs] r]. reflexivity.
Qed.

Lemma mbind_inspect {A B} (f : OS -> A)
  (k : A -> M OS IpswPatcherConfig B) os :
  mbind (inspect OS IpswPatcherConfig f) k os = k (f os) os.
Proof.
  unfold mbind, inspect. destruct (k (f os) os) as [[os2 evs] r]. reflexivity.
Qed.

Lemma mbind_run {A} argv (k : unit -> M OS IpswPatcherConfig A) os :
  mbind (run argv) k os =
  match run_and_check argv os with
  | (os1, Raised e) => (os1, [Ran argv (Raised e)], inl e)
  | (os1, Returned) =>
      match k tt os1 with
      | (os2, evs, r) => (os2, Ran argv Returned :: evs, r)
      end
  end.
Proof.
  unfold mbind, run.
  destruct (run_and_check argv os) as [os1 [| e]]; cbn [of_outcome].
  - destruct (k tt os1) as [[os2 evs] r]. reflexivity.
  - reflexivity.
Qed.

(** The three ways [DmgPatchSet.apply] can go: the resize fails; the
    attach fails; or the mount scope is entered, the members are applied
    until one raises, and the image is detached.  Line 64 is reached only
    in the last case, when neither a member nor the detach raised. *)
Lemma apply_cases (patches : list (DmgPatch OS IpswPatcherConfig))
  config path base data os :
  exists size dmg os',
    (exists e,
       apply patches config path base data os =
       (os', [Ran (hdiutil_resize size dmg) (Raised e)], (Raised e, data)))
    \/
    (exists mount_point e,
       apply patches config path base data os =
       (os',
        [Ran (hdiutil_resize size dmg) Returned;
         Ran (hdiutil_attach mount_point dmg) (Raised e)],
        (Raised e, data)))
    \/
    (exists mount_point k failure o_detach new_bytes,
       member_position patches k failure /\
       apply patches config path base data os =
       (os',
        Ran (hdiutil_resize size dmg) Returned
        :: Ran (hdiutil_attach mount_point dmg) Returned
        :: member_events mount_point patches k failure
           ++ [Ran (hdiutil_detach mount_point) o_detach],
        (scope_outcome failure o_detach,
         match scope_outcome failure o_detach with
         | Returned => new_bytes
         | Raised _ => data
         end))).
Proof.
  unfold apply, apply_body, with_TemporaryDirectory.
  destruct (TemporaryDirectory_enter os) as [os0 temp_dir].
  cbv beta zeta.
  rewrite mbind_modify, mbind_inspect, mbind_run.
  set (dmg := scratch_dmg temp_dir).
  set (size := ceil_mb _).
  destruct (run_and_check (hdiutil_resize size dmg) (write_bytes dmg data os0))
    as [os1 [| e]] eqn:Hresize.
  2:{ exists size, dmg, (TemporaryDirectory_exit temp_dir os1).
      left. exists e. reflexivity. }
  unfold mbind.
  destruct (mount_dmg_spec dmg (apply_each patches config) os1)
    as (os2 & mount_point & [(e & Hmount) |
          (os3 & os4 & evs & r & o_detach & Hbody & Hmount)]);
    rewrite Hmount.
  - exists size, dmg, (TemporaryDirectory_exit temp_dir os2).
    right. left. exists mount_point, e. reflexivity.
  - destruct (apply_each_spec patches config mount_point os3)
      as (k & failure & os5 & Heach & Hpos).
    rewrite Heach in Hbody. injection Hbody as -> <- <-.
    exists size, dmg, (TemporaryDirectory_exit temp_dir os2).
    right. right.
    exists mount_point, k, failure, o_detach, (read_bytes dmg os2).
    split; [exact Hpos |].
    destruct o_detach as [| e']; destruct failure as [[p e] |];
      cbn [member_result scope_outcome]; unfold inspect; cbv beta iota;
      rewrite ?app_nil_r, ?setslice_whole; reflexivity.
Qed.

Lemma member_events_applied root
  (patches : list (DmgPatch OS IpswPatcherConfig)) k failure ev :
  In ev (member_events root patches k failure) ->
  is_applied ev = true /\ is_attach ev = false /\ is_detach ev = false.
Proof.
  unfold member_events. intros Hin. apply in_app_or in Hin as [Hin | Hin].
  - apply in_map_iff in Hin as (p & <- & _). repeat split.
  - destruct failure as [[p e] |]; [| contradiction].
    destruct Hin as [<- | []]. repeat split.
Qed.

(** [DmgPatchSet.apply], step by step, with the machine each step
    finds and leaves. *)
Lemma apply_steps (patches : list (DmgPatch OS IpswPatcherConfig))
  config path base data os :
  apply patches config path base data os =
  let (os0, temp_dir) := TemporaryDirectory_enter os in
  let dmg := scratch_dmg temp_dir in
  let os_written := write_bytes dmg data os0 in
  let size := ceil_mb (st_size dmg os_written + 1024 * 1024 * 4) in
  match run_and_check (hdiutil_resize size dmg) os_written with
  | (os_resized, Raised e) =>
      (TemporaryDirectory_exit temp_dir os_resized,
       [Ran (hdiutil_resize size dmg) (Raised e)], (Raised e, data))
  | (os_resized, Returned) =>
      let (os_scope, mount_dir) := TemporaryDirectory_enter os_resized in
      let mount_point := joinpath mount_dir "dmg_mount_point" in
      match run_and_check (hdiutil_attach mount_point dmg) os_scope with
      | (os_attached, Raised e) =>
          (TemporaryDirectory_exit temp_dir
             (TemporaryDirectory_exit mount_dir os_attached),
           [Ran (hdiutil_resize size dmg) Returned;
            Ran (hdiutil_attach mount_point dmg) (Raised e)],
           (Raised e, data))
      | (os_attached, Returned) =>
          match apply_each patches config mount_point os_attached with
          | (os_members, evs, r) =>
              match run_and_check (hdiutil_detach mount_point) os_members with
              | (os_detached, o_detach) =>
                  let os_left := TemporaryDirectory_exit mount_dir os_detached in
                  (TemporaryDirectory_exit temp_dir os_left,
                   Ran (hdiutil_resize size dmg) Returned
                   :: Ran (hdiutil_attach mount_point dmg) Returned
                   :: evs ++ [Ran (hdiutil_detach mount_point) o_detach],
                   match o_detach, r with
                   | Raised e, _ => (Raised e, data)
                   | Returned, inl e => (Raised e, data)
                   | Returned, inr _ => (Returned, read_bytes dmg os_left)
                   end)
              end
          end
      end
  end.
Proof.
  unfold apply, apply_body, with_TemporaryDirectory.
  destruct (TemporaryDirectory_enter os) as [os0 temp_dir].
  cbv beta zeta.
  rewrite mbind_modify, mbind_inspect, mbind_run.
  destruct (run_and_check _ (write_bytes (scratch_dmg temp_dir) data os0))
    as [os_resized [| e]]; [| reflexivity].
  unfold mbind at 1. unfold _mount_dmg, with_TemporaryDirectory.
  destruct (TemporaryDirectory_enter os_resized) as [os_scope mount_dir].
  rewrite mbind_run.
  destruct (run_and_check _ os_scope) as [os_attached [| e]]; [| reflexivity].
  unfold try_finally, run.
  destruct (apply_each patches config _ os_attached)
    as [[os_members evs] r].
  destruct (run_and_check _ os_members) as [os_detached [| e]];
    cbn [of_outcome].
  - destruct r as [e | []]; unfold inspect;
      rewrite ?app_nil_r, ?setslice_whole; reflexivity.
  - reflexivity.
Qed.


(** C9: when the attach of a [DmgPatchSet.apply] fails, the call raises
    the exception of the attach, no member is applied, nothing is
    detached, and the buffer is the one the caller passed.  The buffer is
    overwritten only by a call that returns, and a call returns only
    after every member has returned and the image has been detached. *)
Theorem mount_failure_leaves_buffer
  (patches : list (DmgPatch OS IpswPatcherConfig))
  config path base data os os' evs o data' :
  apply patches config path base data os = (os', evs, (o, data')) ->
  (forall ev e,
     In ev evs -> is_attach ev = true -> event_outcome ev = Raised e ->
     o = Raised e /\ data' = data /\
     Forall (fun ev' => is_applied ev' = false /\ is_detach ev' = false) evs)
  /\
  (o <> Returned -> data' = data) /\
  (o = Returned ->
   exists size dmg mount_point,
     evs = Ran (hdiutil_resize size dmg) Returned
           :: Ran (hdiutil_attach mount_point dmg) Returned
           :: member_events mount_point patches (length patches) None
              ++ [Ran (hdiutil_detach mount_point) Returned]).
Proof.
  intros Happ.
  destruct (apply_cases patches config path base data os)
    as (size & dmg & os'' &
        [(e & Hcase) | [(mount_point & e & Hcase) |
         (mount_point & k & failure & o_detach & new_bytes & Hpos & Hcase)]]);
    rewrite Hcase in Happ; injection Happ as <- <- <- <-.
  - split; [| split; [reflexivity | discriminate]].
    intros ev e' [<- | []] Hattach. discriminate.
  - split; [| split; [reflexivity | discriminate]].
    intros ev e' [<- | [<- | []]] Hattach; [discriminate |].
    intros [= <-]. repeat constructor.
  - split; [| split].
    + intros ev e' [<- | [<- | Hin]] Hattach Hraised; try discriminate.
      apply in_app_or in Hin as [Hin | [<- | []]].
      * apply member_events_applied in Hin as (_ & Hn & _). congruence.
      * discriminate.
    + intros Ho. destruct (scope_outcome failure o_detach);
        [contradiction | reflexivity].
    + intros Ho. exists size, dmg, mount_point.
      destruct o_detach; [| discriminate].
      destruct failure as [[p e] |]; [discriminate |].
      cbn in Hpos. subst k. reflexivity.
Qed.

End WithHost.

#[local] Existing Instance Machine.host.


(** The same run on the machine: the image is mounted while the members
    are applied and is no longer mounted after the call, which raises
    the exception of the second member. *)
Example mount_is_gone_after_a_member_failure :
  apply [Machine.grow "/tmp/t0/ramdisk.dmg"; Machine.remove_compass]
    tt "rootfs.dmg" 0 [x01] (Machine.boot false)
  = (Machine.set_mounts []
       (fst (dmg_apply (Machine.grow "/tmp/t0/ramdisk.dmg") tt
               "/tmp/t1/dmg_mount_point"
               (Machine.set_mounts ["/tmp/t1/dmg_mount_point/"]
                  (fst (Machine.mkdtemp
                          (Machine.store "/tmp/t0/ramdisk.dmg" [x01]
                             (fst (Machine.mkdtemp (Machine.boot false))))))))),
     [Ran (hdiutil_resize 5 "/tmp/t0/ramdisk.dmg") Returned;
      Ran (hdiutil_attach "/tmp/t1/dmg_mount_point" "/tmp/t0/ramdisk.dmg")
        Returned;
      Applied (Machine.grow "/tmp/t0/ramdisk.dmg") "/tmp/t1/dmg_mount_point"
        Returned;
      Applied Machine.remove_compass "/tmp/t1/dmg_mount_point"
        (Raised (LibraryError (OtherError "FileNotFoundError")));
      Ran (hdiutil_detach "/tmp/t1/dmg_mount_point") Returned],
     (Raised (LibraryError (OtherError "FileNotFoundError")), [x01])).
Proof. reflexivity. Qed.


(** The attach fails: the call raises its exception and the buffer is
    the one that was passed. *)
Lemma mount_failure_leaves_buffer_witness :
  snd (apply [Machine.grow "/tmp/t0/ramdisk.dmg"] tt "rootfs.dmg" 0 [x01]
         (Machine.boot true))
  = (Raised (LibraryError
               (CommandFailed
                  (hdiutil_attach "/tmp/t1/dmg_mount_point"
                     "/tmp/t0/ramdisk.dmg"))),
     [x01]).
Proof.
  destruct (apply [Machine.grow "/tmp/t0/ramdisk.dmg"] tt "rootfs.dmg" 0
              [x01] (Machine.boot true))
    as [[os' evs] [o data']] eqn:Hrun.
  destruct (mount_failure_leaves_buffer _ _ _ _ _ _ _ _ _ _ Hrun)
    as (Hfail & _).
  destruct (Hfail (Ran (hdiutil_attach "/tmp/t1/dmg_mount_point"
                          "/tmp/t0/ramdisk.dmg")
                     (Raised (LibraryError
                                (CommandFailed
                                   (hdiutil_attach "/tmp/t1/dmg_mount_point"
                                      "/tmp/t0/ramdisk.dmg")))))
              (LibraryError
                 (CommandFailed
                    (hdiutil_attach "/tmp/t1/dmg_mount_point"
                       "/tmp/t0/ramdisk.dmg"))))
    as (Ho & Hdata & _).
  - vm_compute in Hrun. injection Hrun as _ <- _ _.
    right. left. reflexivity.
  - reflexivity.
  - reflexivity.
  - cbn [snd]. rewrite Ho, Hdata. reflexivity.
Defined.

(** Every member returns: the image is detached and the buffer becomes
    the bytes of the scratch image. *)
Example members_return_and_buffer_is_replaced :
  snd (apply [Machine.grow "/tmp/t0/ramdisk.dmg"] tt "rootfs.dmg" 0 [x01]
         (Machine.boot false))
  = (Returned, [x01; xff]).
Proof. reflexivity. Qed.

End DmgPatchSetFacts.

(* ===================================================================== *)
(** ** Further properties of the buffer patches *)
(* ===================================================================== *)

Module EngineFacts.
Import patches spec PyFacts.

(** A slice assignment [l[a:a+len(v)] = v] never makes the sequence
    shorter, wherever the slice lies. *)
Lemma len_setslice_ge {A} (l v : list A) (a : Z) :
  len l <= len (setslice l a (a + len v) v).
Proof.
  pose proof (len_nonneg l) as Hl. pose proof (len_nonneg v) as Hv.
  unfold setslice, adjust_index.
  set (s := if a <? 0 then Z.max 0 (a + len l) else Z.min a (len l)).
  set (e := Z.max s (if a + len v <? 0 then Z.max 0 (a + len v + len l)
                     else Z.min (a + len v) (len l))).
  assert (Hs : 0 <= s <= len l).
  { subst s. destruct (Z.ltb_spec a 0); lia. }
  assert (He : s <= e <= len l /\ e - s <= len v).
  { subst e s. destruct (Z.ltb_spec a 0);
      destruct (Z.ltb_spec (a + len v) 0); lia. }
  unfold len in *.
  rewrite !length_app, length_firstn, length_skipn. lia.
Qed.

Section WithToolchain.
Context `{Toolchain}.

Lemma patch_loop_len_ge instrs : forall c data o c' data',
  patch_loop instrs c data = (o, c', data') -> len data <= len data'.
Proof.
  induction instrs as [| i rest IH]; intros c data o c' data' Hloop.
  - injection Hloop as _ _ <-. lia.
  - cbn [patch_loop] in Hloop.
    destruct (assemble_checked (patched_instr_address c) i) as [e | bs].
    + injection Hloop as _ _ <-. lia.
    + apply IH in Hloop.
      pose proof (len_setslice_ge data bs (patch_file_offset c)). lia.
Qed.

Lemma for_each_patch_len_ge (patches : list Patch) path base :
  (forall p, In p patches ->
     forall data, len data <= len (snd (apply p path base data))) ->
  forall data,
    len data <= len (snd (snd (for_each_patch apply path base patches data))).
Proof.
  induction patches as [| p rest IH]; intros Hmembers data.
  - cbn. lia.
  - rewrite BufferPatchFacts.for_each_patch_cons. cbv zeta.
    pose proof (Hmembers p (or_introl eq_refl) data) as Hp.
    destruct (apply p path base data) as [[| e] data1]; cbn [fst snd] in *.
    + specialize (IH (fun q Hq => Hmembers q (or_intror Hq)) data1). lia.
    + exact Hp.
Qed.

(** X1: No patch ever makes the buffer shorter, whether it returns or
    raises. *)
Theorem apply_never_shrinks_buffer : forall (p : Patch) path base data,
  len data <= len (snd (apply p path base data)).
Proof.
  fix IH 1. intros [fn address orig patched el | address content | name ps]
    path base data.
  - rewrite InstructionPatchFacts.apply_InstructionPatch.
    destruct (try_macho_file_offset path address base) as [e | offset];
      [cbn; lia |].
    destruct (validate_orig address offset orig data); [| cbn; lia].
    destruct (patch_loop patched (start_cursor address offset) data)
      as [[o c] data'] eqn:Hloop.
    apply patch_loop_len_ge in Hloop. destruct o; exact Hloop.
  - rewrite BufferPatchFacts.apply_BlobPatch.
    destruct (try_macho_file_offset path address base) as [e | offset];
      [cbn; lia |].
    destruct ((address - base <? 0) || (address - base >=? len data));
      [cbn; lia |].
    apply len_setslice_ge.
  - rewrite BufferPatchFacts.apply_PatchSet.
    apply for_each_patch_len_ge.
    induction ps as [| q qs IHqs]; intros p [].
    + subst p. apply IH.
    + apply IHqs. assumption.
Qed.

Lemma patch_loop_app xs ys : forall c data,
  patch_loop (xs ++ ys) c data =
  match patch_loop xs c data with
  | (Returned, c', data') => patch_loop ys c' data'
  | (Raised e, c', data') => (Raised e, c', data')
  end.
Proof.
  induction xs as [| x xs IH]; intros c data.
  - reflexivity.
  - cbn [app patch_loop].
    destruct (assemble_checked (patched_instr_address c) x) as [e | bs];
      [reflexivity |].
    apply IH.
Qed.

(** X2: A replacement that fails its check ends the call, and the
    replacements before it stay written: when the replacements [written]
    round-trip and the next one, [bad], does not assemble or does not
    decode back to its text, [apply] raises the exception of [bad] and
    the buffer holds the encodings of [written], in order from the
    resolved offset, with the rest as before. *)
Theorem assembly_failure_keeps_earlier_writes
  function_name address orig written bad rest expected_length path base data
  offset chunks e :
  try_macho_file_offset path address base = inr offset ->
  validate_orig address offset orig data = Returned ->
  assembled_replacements address written = Some chunks ->
  assemble_checked (address + len (concat chunks)) bad = inl e ->
  0 <= offset ->
  offset + len (concat chunks) <= len data ->
  apply (InstructionPatch function_name address orig (written ++ bad :: rest)
           expected_length) path base data =
  (Raised e,
   firstn (Z.to_nat offset) data ++ concat chunks
   ++ skipn (Z.to_nat (offset + len (concat chunks))) data).
Proof.
  intros Hoff Hv Hs Hbad Hlo Hhi.
  rewrite InstructionPatchFacts.apply_InstructionPatch, Hoff, Hv.
  rewrite patch_loop_app.
  rewrite (InstructionPatchFacts.patch_loop_inside written
             (start_cursor address offset) data chunks Hs Hlo Hhi).
  cbn [patch_loop advance start_cursor patched_instr_address
         patch_file_offset].
  rewrite Hbad.
  rewrite setslice_inside by assumption. reflexivity.
Qed.

(** The exceptions of the check of one replacement. *)
Lemma assemble_checked_raises address i e :
  assemble_checked address i = inl e ->
  (exists l, e = LibraryError l) \/ is_AssemblyMismatch e = true.
Proof.
  unfold assemble_checked, bind, propagate, raise, ret.
  destruct (assemble address i) as [l | bs].
  - intros [= <-]. left. exists l. reflexivity.
  - destruct (cs_disasm bs address) as [l | [| d [| d' ds]]].
    + intros [= <-]. left. exists l. reflexivity.
    + intros [= <-]. right. reflexivity.
    + destruct (negb _); [| discriminate].
      intros [= <-]. right. reflexivity.
    + intros [= <-]. right. reflexivity.
Qed.

Lemma patch_loop_raises instrs : forall c data e c' data',
  patch_loop instrs c data = (Raised e, c', data') ->
  (exists l, e = LibraryError l) \/ is_AssemblyMismatch e = true.
Proof.
  induction instrs as [| i rest IH]; intros c data e c' data' Hloop.
  - discriminate.
  - cbn [patch_loop] in Hloop.
    destruct (assemble_checked (patched_instr_address c) i) as [e' | bs] eqn:Hc.
    + injection Hloop as -> _ _. eapply assemble_checked_raises. exact Hc.
    + eapply IH. exact Hloop.
Qed.

(** X3: What [InstructionPatch.apply] can raise: an exception of a
    collaborator (the container lookup, the disassembler, the
    assembler), a verification mismatch, an assembly mismatch or a
    length mismatch, and never the invalid offset error of [BlobPatch]:
    the offset is not checked against the buffer.  After a verification
    mismatch, after an exception of the container lookup and after an
    exception of the disassembler on the region of the original
    instructions, the buffer is as it was. *)
Theorem InstructionPatch_exceptions
  function_name address orig patched expected_length path base data e data' :
  apply (InstructionPatch function_name address orig patched expected_length)
    path base data = (Raised e, data') ->
  ((exists l, e = LibraryError l) \/ is_VerificationMismatch e = true \/
   is_AssemblyMismatch e = true \/ is_LengthMismatch e = true) /\
  is_OutOfBounds e = false /\
  (is_VerificationMismatch e = true -> data' = data) /\
  (forall l, try_macho_file_offset path address base = inl l ->
             e = LibraryError l /\ data' = data) /\
  (forall offset l,
     try_macho_file_offset path address base = inr offset ->
     actual_orig_instructions address offset orig data = inl l ->
     e = LibraryError l /\ data' = data).
Proof.
  rewrite InstructionPatchFacts.apply_InstructionPatch.
  destruct (try_macho_file_offset path address base) as [l | offset].
  { intros [= <- <-]. split; [| split; [| split; [| split]]].
    - left. exists l. reflexivity.
    - reflexivity.
    - reflexivity.
    - intros l' [= <-]. split; reflexivity.
    - discriminate. }
  destruct (validate_orig address offset orig data) as [| e0] eqn:Hv.
  2:{ intros [= <- <-].
      pose proof (InstructionPatchFacts.validate_orig_raised_kind _ _ _ _ _ Hv)
        as (_ & _ & Hbounds).
      split; [| split; [| split; [| split]]].
      - destruct (InstructionPatchFacts.validate_orig_raised _ _ _ _ _ Hv)
          as [(l & _ & ->) | (_ & _ & _ & Hver)].
        + left. exists l. reflexivity.
        + right. left. exact Hver.
      - exact Hbounds.
      - reflexivity.
      - discriminate.
      - intros offset' l [= <-] Hl. unfold validate_orig in Hv.
        rewrite Hl in Hv. injection Hv as <-. split; reflexivity. }
  assert (Hactual : forall l,
            actual_orig_instructions address offset orig data <> inl l).
  { intros l Hl. unfold validate_orig in Hv. rewrite Hl in Hv.
    discriminate. }
  destruct (patch_loop patched (start_cursor address offset) data)
    as [[[| e0] c] d] eqn:Hloop.
  - unfold check_expected_length.
    destruct expected_length as [n |]; [| discriminate].
    destruct (truthy (Some n) && negb (patch_length c =? n));
      [| discriminate].
    intros [= <- <-]. split; [| split; [| split; [| split]]].
    + right. right. right. reflexivity.
    + reflexivity.
    + discriminate.
    + discriminate.
    + intros offset' l [= <-] Hl. destruct (Hactual l Hl).
  - intros [= <- <-].
    pose proof (InstructionPatchFacts.patch_loop_raised _ _ _ _ _ _ Hloop)
      as [_ Hnv].
    split; [| split; [| split; [| split]]].
    + destruct (patch_loop_raises _ _ _ _ _ _ Hloop) as [[l ->] | Has].
      * left. exists l. reflexivity.
      * right. right. left. exact Has.
    + destruct (patch_loop_raises _ _ _ _ _ _ Hloop) as [[l ->] | Has];
        [reflexivity |].
      destruct e0 as [? | []]; try discriminate; reflexivity.
    + congruence.
    + discriminate.
    + intros offset' l [= <-] Hl. destruct (Hactual l Hl).
Qed.

(** X4: A [BlobPatch] that raises has not touched the buffer, and raises
    either an exception of the container lookup or the invalid offset
    error, the latter exactly for an offset outside [0, len(buffer)). *)
Theorem BlobPatch_failure_is_clean address new_content path base data e data' :
  apply (BlobPatch address new_content) path base data = (Raised e, data') ->
  data' = data /\
  ((exists l, try_macho_file_offset path address base = inl l
              /\ e = LibraryError l) \/
   (e = ValueError (InvalidOffset (address - base)) /\
    (address - base < 0 \/ len data <= address - base))).
Proof.
  rewrite BufferPatchFacts.apply_BlobPatch.
  destruct (try_macho_file_offset path address base) as [l | offset].
  - intros [= <- <-]. split; [reflexivity |]. left. exists l. split; reflexivity.
  - destruct (Z.ltb_spec (address - base) 0);
      destruct (Z.geb_spec (address - base) (len data));
      cbn [orb]; try discriminate;
      intros [= <- <-]; (split; [reflexivity |]); right;
      (split; [reflexivity | lia]).
Qed.

(** X5: For a container that is parsed as a Mach-O, or whose parser raises
    anything but [ArchitectureNotSupportedError], the base address the
    caller passes plays no part in [InstructionPatch.apply]. *)
Theorem macho_container_ignores_base
  function_name address orig patched expected_length path data :
  macho_file_offset path address <> inl ArchitectureNotSupportedError ->
  forall base1 base2,
    apply (InstructionPatch function_name address orig patched
             expected_length) path base1 data =
    apply (InstructionPatch function_name address orig patched
             expected_length) path base2 data.
Proof.
  intros Hmacho base1 base2.
  assert (Htry : forall base,
             try_macho_file_offset path address base =
             macho_file_offset path address).
  { intros base. unfold try_macho_file_offset.
    destruct (macho_file_offset path address) as [[] |];
      try reflexivity. contradiction. }
  rewrite !InstructionPatchFacts.apply_InstructionPatch, !Htry.
  reflexivity.
Qed.

(** A verification mismatch comes from the comparison of the original
    instructions, which ran on the untouched buffer. *)
Lemma verification_mismatch_inv
  function_name address orig patched expected_length path base data e data' :
  apply (InstructionPatch function_name address orig patched expected_length)
    path base data = (Raised e, data') ->
  is_VerificationMismatch e = true ->
  exists offset actual,
    try_macho_file_offset path address base = inr offset /\
    actual_orig_instructions address offset orig data = inr actual /\
    compare_orig actual orig = Raised e /\ data' = data.
Proof.
  rewrite InstructionPatchFacts.apply_InstructionPatch.
  destruct (try_macho_file_offset path address base) as [l | offset];
    [intros [= <- _]; discriminate |].
  destruct (validate_orig address offset orig data) as [| e0] eqn:Hv.
  2:{ intros [= <- <-] Hver.
      destruct (InstructionPatchFacts.validate_orig_raised _ _ _ _ _ Hv)
        as [(l & _ & ->) | (actual & Hactual & Hc & _)]; [discriminate |].
      exists offset, actual. repeat split; assumption. }
  destruct (patch_loop patched (start_cursor address offset) data)
    as [[[| e0] c] d] eqn:Hloop.
  - unfold check_expected_length.
    destruct expected_length as [n |]; [| discriminate].
    destruct (truthy (Some n) && negb (patch_length c =? n));
      [| discriminate].
    intros [= <- _]. discriminate.
  - intros [= <- _] Hver.
    apply InstructionPatchFacts.patch_loop_raised in Hloop as [_ Hnv].
    congruence.
Qed.

(** X6: once the offset is resolved, what decides the validation is the
    disassembler on the region of the original instructions.  When it
    returns, [InstructionPatch.apply] raises a verification mismatch
    exactly when the region did not disassemble to as many instructions
    as are declared, or the text [mnemonic + " " + op_str] of one of
    them is not the declared text.  When it raises, as capstone does on
    the empty region behind the end of the buffer, its exception leaves
    [apply], which is then no verification mismatch. *)
Theorem verification_mismatch_iff
  function_name address orig patched expected_length path base data offset :
  try_macho_file_offset path address base = inr offset ->
  (forall actual,
     actual_orig_instructions address offset orig data = inr actual ->
     ((exists e data',
         apply (InstructionPatch function_name address orig patched
                  expected_length) path base data = (Raised e, data')
         /\ is_VerificationMismatch e = true)
      <->
      ~ (length actual = length orig /\
         Forall (fun p => actual_orig_instruction_str (fst p) = value (snd p))
           (combine actual orig)))) /\
  (forall l,
     actual_orig_instructions address offset orig data = inl l ->
     apply (InstructionPatch function_name address orig patched
              expected_length) path base data
     = (Raised (LibraryError l), data) /\
     is_VerificationMismatch (LibraryError l) = false).
Proof.
  intros Hoff. split.
  - intros actual Hactual. split.
    + intros (e & data' & Happ & Hver) Hok.
      destruct (verification_mismatch_inv _ _ _ _ _ _ _ _ _ _ Happ Hver)
        as (offset' & actual' & Hoff' & Hactual' & Hc & _).
      rewrite Hoff in Hoff'. injection Hoff' as <-.
      rewrite Hactual in Hactual'. injection Hactual' as <-.
      apply InstructionPatchFacts.compare_orig_returned in Hok. congruence.
    + intros Hbad.
      destruct (InstructionPatchFacts.mismatch_is_rejected_before_writing
                  function_name address orig patched expected_length
                  path base data offset actual Hoff Hactual Hbad)
        as (e & Happ & Hver).
      exists e, data. split; assumption.
  - intros l Hl. split; [| reflexivity].
    apply InstructionPatchFacts.disassembler_exception_leaves_apply
      with (offset := offset); assumption.
Qed.

Lemma for_each_patch_app {P : Type}
  (f : P -> Path -> Z -> bytearray -> outcome * bytearray)
  path base xs ys : forall data,
  snd (for_each_patch f path base (xs ++ ys) data) =
  match snd (for_each_patch f path base xs data) with
  | (Returned, data') => snd (for_each_patch f path base ys data')
  | (Raised e, data') => (Raised e, data')
  end.
Proof.
  induction xs as [| x xs IH]; intros data.
  - reflexivity.
  - cbn [app]. rewrite !BufferPatchFacts.for_each_patch_cons. cbv zeta.
    destruct (f x path base data) as [[| e] data1]; cbn [snd].
    + apply IH.
    + reflexivity.
Qed.

(** X7: A [PatchSet] among the members of a [PatchSet] does to the buffer,
    and ends, as its own members do in its place: grouping patches makes
    no difference. *)
Theorem PatchSet_flattens name inner_name before inner after path base data :
  apply (PatchSet name (before ++ PatchSet inner_name inner :: after))
    path base data =
  apply (PatchSet name (before ++ inner ++ after)) path base data.
Proof.
  rewrite !BufferPatchFacts.apply_PatchSet, !for_each_patch_app.
  destruct (snd (for_each_patch apply path base before data))
    as [[| e] data1]; [| reflexivity].
  rewrite BufferPatchFacts.for_each_patch_cons. cbv zeta.
  rewrite BufferPatchFacts.apply_PatchSet, for_each_patch_app.
  destruct (snd (for_each_patch apply path base inner data1))
    as [[| e] data2]; reflexivity.
Qed.

Lemma setslice_commute {A} (l v1 v2 : list A) (o1 o2 : Z) :
  0 <= o1 -> o1 + len v1 <= len l ->
  0 <= o2 -> o2 + len v2 <= len l ->
  o1 + len v1 <= o2 \/ o2 + len v2 <= o1 ->
  setslice (setslice l o1 (o1 + len v1) v1) o2 (o2 + len v2) v2 =
  setslice (setslice l o2 (o2 + len v2) v2) o1 (o1 + len v1) v1.
Proof.
  intros Hlo1 Hhi1 Hlo2 Hhi2 Hdisjoint.
  pose proof (len_nonneg v1) as Hv1. pose proof (len_nonneg v2) as Hv2.
  pose proof (len_setslice_inside l v1 o1 Hlo1 Hhi1) as Hl1.
  pose proof (len_setslice_inside l v2 o2 Hlo2 Hhi2) as Hl2.
  apply nth_error_ext. intros n.
  rewrite <- (Nat2Z.id n). set (i := Z.of_nat n).
  assert (Hi : 0 <= i) by (subst i; lia).
  destruct (Z.lt_ge_cases i o2) as [Hb2 | Ha2];
    [| destruct (Z.lt_ge_cases i (o2 + len v2)) as [Hin2 | Hb2]].
  1, 3: rewrite (nth_error_setslice_outside _ v2 o2 i) by lia;
        destruct (Z.lt_ge_cases i o1) as [Hb1 | Ha1];
          [| destruct (Z.lt_ge_cases i (o1 + len v1)) as [Hin1 | Hb1]].
  all: repeat first
         [ rewrite (nth_error_setslice_inside _ v1 o1 i) by lia
         | rewrite (nth_error_setslice_inside _ v2 o2 i) by lia
         | rewrite (nth_error_setslice_outside _ v1 o1 i) by lia
         | rewrite (nth_error_setslice_outside _ v2 o2 i) by lia ];
       reflexivity.
Qed.

(** X8: Two [BlobPatch]es that write disjoint ranges inside the buffer can
    be applied in either order. *)
Theorem disjoint_BlobPatches_commute
  name a1 c1 a2 c2 path base data r1 r2 :
  try_macho_file_offset path a1 base = inr r1 ->
  try_macho_file_offset path a2 base = inr r2 ->
  0 <= a1 - base < len data -> a1 - base + len c1 <= len data ->
  0 <= a2 - base < len data -> a2 - base + len c2 <= len data ->
  a1 - base + len c1 <= a2 - base \/ a2 - base + len c2 <= a1 - base ->
  apply (PatchSet name [BlobPatch a1 c1; BlobPatch a2 c2]) path base data =
  apply (PatchSet name [BlobPatch a2 c2; BlobPatch a1 c1]) path base data.
Proof.
  intros Hr1 Hr2 Hin1 Hend1 Hin2 Hend2 Hdisjoint.
  rewrite !BufferPatchFacts.apply_PatchSet.
  rewrite !BufferPatchFacts.for_each_patch_cons. cbv zeta.
  rewrite (BufferPatchFacts.apply_BlobPatch_inside a1 c1 path base data r1)
    by assumption.
  rewrite (BufferPatchFacts.apply_BlobPatch_inside a2 c2 path base data r2)
    by assumption.
  cbn [fst snd].
  rewrite !BufferPatchFacts.for_each_patch_cons. cbv zeta.
  rewrite (BufferPatchFacts.apply_BlobPatch_inside a2 c2 path base _ r2 Hr2)
    by (rewrite len_setslice_inside; lia).
  rewrite (BufferPatchFacts.apply_BlobPatch_inside a1 c1 path base _ r1 Hr1)
    by (rewrite len_setslice_inside; lia).
  cbn [fst snd for_each_patch].
  rewrite setslice_commute by lia. reflexivity.
Qed.

(** X9: Applying a [BlobPatch] that has returned once more changes nothing:
    it returns again with the same buffer. *)
Theorem BlobPatch_is_idempotent address new_content path base data data1 :
  apply (BlobPatch address new_content) path base data = (Returned, data1) ->
  apply (BlobPatch address new_content) path base data1 = (Returned, data1).
Proof.
  rewrite !BufferPatchFacts.apply_BlobPatch.
  destruct (try_macho_file_offset path address base) as [l | offset];
    [discriminate |].
  destruct (Z.ltb_spec (address - base) 0); [discriminate |].
  destruct (Z.geb_spec (address - base) (len data)); [discriminate |].
  cbn [orb]. intros [= <-].
  set (o := address - base) in *.
  pose proof (len_nonneg new_content) as Hv.
  pose proof (len_setslice_from_inside data new_content o ltac:(lia)) as Hlen.
  destruct (Z.ltb_spec o 0); [lia |].
  destruct (Z.geb_spec o (len (setslice data o (o + len new_content)
                                 new_content))); [lia |].
  cbn [orb]. f_equal.
  rewrite (setslice_from_inside (setslice data o (o + len new_content)
                                   new_content)) by lia.
  rewrite (setslice_from_inside data) by lia.
  pose proof (length_firstn_inside data o ltac:(lia)) as Hp.
  rewrite (firstn_app_exact (firstn (Z.to_nat o) data)) by lia.
  do 2 f_equal.
  rewrite (app_assoc (firstn (Z.to_nat o) data) new_content).
  apply (skipn_app_past (firstn (Z.to_nat o) data ++ new_content) _ _ 0).
  rewrite length_app. unfold len. lia.
Qed.

Lemma setslice_twice {A} (l v : list A) (o : Z) :
  0 <= o -> o + len v <= len l ->
  setslice (setslice l o (o + len v) v) o (o + len v) v =
  setslice l o (o + len v) v.
Proof.
  intros Hlo Hhi. pose proof (len_nonneg v) as Hv.
  rewrite (setslice_inside (setslice l o (o + len v) v))
    by (rewrite ?len_setslice_inside; lia).
  rewrite (setslice_inside l) by lia.
  pose proof (length_firstn_inside l o ltac:(lia)) as Hp.
  rewrite (firstn_app_exact (firstn (Z.to_nat o) l)) by lia.
  do 2 f_equal.
  rewrite (app_assoc (firstn (Z.to_nat o) l) v).
  apply (skipn_app_past (firstn (Z.to_nat o) l ++ v) _ _ 0).
  rewrite length_app. unfold len. lia.
Qed.

Lemma validate_orig_nil address offset data :
  validate_orig address offset [] data = Returned.
Proof. reflexivity. Qed.

(** X10: A patch that declares no original instructions and has been applied
    inside the buffer can be applied again: it returns again and leaves
    the buffer as the first application left it. *)
Theorem reapplying_unverified_patch
  function_name address patched expected_length path base data data1
  offset chunks :
  try_macho_file_offset path address base = inr offset ->
  assembled_replacements address patched = Some chunks ->
  0 <= offset ->
  offset + len (concat chunks) <= len data ->
  apply (InstructionPatch function_name address [] patched expected_length)
    path base data = (Returned, data1) ->
  apply (InstructionPatch function_name address [] patched expected_length)
    path base data1 = (Returned, data1).
Proof.
  intros Hoff Hs Hlo Hhi.
  rewrite !InstructionPatchFacts.apply_InstructionPatch, Hoff.
  rewrite !validate_orig_nil.
  rewrite (InstructionPatchFacts.patch_loop_inside patched
             (start_cursor address offset) data chunks Hs Hlo Hhi).
  cbn [start_cursor patch_file_offset advance patch_length].
  intros [= Hcheck <-].
  rewrite (InstructionPatchFacts.patch_loop_inside patched
             (start_cursor address offset) _ chunks Hs Hlo)
    by (cbn [start_cursor patch_file_offset];
        rewrite len_setslice_inside; assumption).
  cbn [start_cursor patch_file_offset advance patch_length].
  rewrite Z.add_0_l, Hcheck, setslice_twice by assumption. reflexivity.
Qed.

(** Whether the replacement loop completes, and where its cursors end,
    does not depend on what the buffer holds. *)
Lemma patch_loop_blind instrs : forall c data1 data2,
  fst (patch_loop instrs c data1) = fst (patch_loop instrs c data2).
Proof.
  induction instrs as [| i rest IH]; intros c data1 data2.
  - reflexivity.
  - cbn [patch_loop].
    destruct (assemble_checked (patched_instr_address c) i) as [e | bs];
      [reflexivity |].
    apply IH.
Qed.

(** X11: The patches [InstructionPatch.quick] and [InstructionPatch.shellcode]
    build are applied blindly: whether [apply] returns or raises, and
    what it raises, is the same for every buffer, and it never raises a
    verification mismatch. *)
Theorem quick_patches_are_blind
  addr new_instr expected_length Instr_thumb path base :
  (forall data1 data2,
     fst (apply (patches_classmethods.quick addr new_instr expected_length)
            path base data1) =
     fst (apply (patches_classmethods.quick addr new_instr expected_length)
            path base data2)) /\
  (forall data e data',
     apply (patches_classmethods.quick addr new_instr expected_length)
       path base data = (Raised e, data') ->
     is_VerificationMismatch e = false) /\
  patches_classmethods.shellcode Instr_thumb addr =
  patches_classmethods.quick addr (inl (Instr_thumb "bl #0x5ff000fc")) None.
Proof.
  unfold patches_classmethods.quick, patches_classmethods.shellcode.
  split; [| split; [| reflexivity]].
  - intros data1 data2.
    rewrite !InstructionPatchFacts.apply_InstructionPatch.
    destruct (try_macho_file_offset path addr base) as [l | offset];
      [reflexivity |].
    rewrite !validate_orig_nil.
    pose proof (patch_loop_blind
                  (match new_instr with inl i => [i] | inr l => l end)
                  (start_cursor addr offset) data1 data2) as Hblind.
    destruct (patch_loop _ (start_cursor addr offset) data1)
      as [[o1 c1] d1].
    destruct (patch_loop _ (start_cursor addr offset) data2)
      as [[o2 c2] d2].
    cbn [fst] in Hblind. injection Hblind as -> ->.
    destruct o2; reflexivity.
  - intros data e data' Happ.
    destruct (is_VerificationMismatch e) eqn:Hver; [| reflexivity].
    destruct (verification_mismatch_inv _ _ _ _ _ _ _ _ _ _ Happ Hver)
      as (offset & actual & _ & Hactual & Hc & _).
    injection Hactual as <-. discriminate Hc.
Qed.

End WithToolchain.

#[local] Existing Instance Thumb.toolchain.

(** The second replacement is no instruction of the assembler: the call
    raises its exception, and the first replacement stays written. *)
Lemma assembly_failure_keeps_earlier_writes_witness :
  apply (InstructionPatch "f" 0x84000002 []
           ([Thumb.thumb "bx lr"] ++ Thumb.thumb "bogus" :: [Thumb.thumb "nop"])
           None)
    "iBSS" Thumb.iBSS_base [x00; x20; x00; x20; x00; x20; x00; x20]
  = (Raised (LibraryError (OtherError "assembler")),
     [x00; x20; x70; x47; x00; x20; x00; x20]).
Proof.
  exact (assembly_failure_keeps_earlier_writes "f" 0x84000002 []
           [Thumb.thumb "bx lr"] (Thumb.thumb "bogus") [Thumb.thumb "nop"]
           None "iBSS" Thumb.iBSS_base
           [x00; x20; x00; x20; x00; x20; x00; x20] 2 [[x70; x47]]
           (LibraryError (OtherError "assembler"))
           eq_refl eq_refl eq_refl eq_refl
           ltac:(lia) ltac:(vm_compute; discriminate)).
Defined.

(** The patched address is the end of the buffer: the region of the
    declared original instruction is empty, the disassembler raises, and
    its exception leaves the call with the buffer as it was. *)
Lemma InstructionPatch_exceptions_witness :
  apply (InstructionPatch "f" 0x84000004 [Thumb.thumb "nop"]
           [Thumb.thumb "bx lr"] None)
    "iBSS" Thumb.iBSS_base [x00; x20; x00; xbf]
  = (Raised (LibraryError (OtherError "ValueError")), [x00; x20; x00; xbf]) /\
  is_VerificationMismatch (LibraryError (OtherError "ValueError")) = false /\
  is_OutOfBounds (LibraryError (OtherError "ValueError")) = false.
Proof.
  split; [reflexivity |]. split; [reflexivity |].
  destruct (InstructionPatch_exceptions "f" 0x84000004 [Thumb.thumb "nop"]
              [Thumb.thumb "bx lr"] None "iBSS" Thumb.iBSS_base
              [x00; x20; x00; xbf]
              (LibraryError (OtherError "ValueError"))
              [x00; x20; x00; xbf])
    as (_ & Hbounds & _); [reflexivity | exact Hbounds].
Defined.

Lemma BlobPatch_failure_is_clean_witness :
  apply (BlobPatch 0x84000009 [xaa]) "iBSS" Thumb.iBSS_base [x00; x20]
  = (Raised (ValueError (InvalidOffset 9)), [x00; x20]) /\
  [x00; x20] = [x00; x20].
Proof.
  split; [reflexivity |].
  destruct (BlobPatch_failure_is_clean 0x84000009 [xaa] "iBSS"
              Thumb.iBSS_base [x00; x20] (ValueError (InvalidOffset 9))
              [x00; x20])
    as (Hsame & _); [reflexivity | exact Hsame].
Defined.

Lemma macho_container_ignores_base_witness :
  apply (InstructionPatch "f" 0x1004 [] [Thumb.thumb "bx lr"] None)
    "macho" 0x1000 (repeat x00 24) =
  apply (InstructionPatch "f" 0x1004 [] [Thumb.thumb "bx lr"] None)
    "macho" 0x84000000 (repeat x00 24).
Proof.
  apply (macho_container_ignores_base "f" 0x1004 [] [Thumb.thumb "bx lr"]
           None "macho" (repeat x00 24)).
  vm_compute. discriminate.
Defined.

(** The region holds [movs r0, #0] where [bx lr] is declared: a
    verification mismatch.  With the patched address at the end of the
    buffer, the exception is the one of the disassembler. *)
Lemma verification_mismatch_iff_witness :
  (exists e data',
     apply (InstructionPatch "f" 0x84000002 [Thumb.thumb "bx lr"]
              [Thumb.thumb "nop"] None)
       "iBSS" Thumb.iBSS_base [x00; x20; x00; x20] = (Raised e, data')
     /\ is_VerificationMismatch e = true) /\
  apply (InstructionPatch "f" 0x84000004 [Thumb.thumb "bx lr"]
           [Thumb.thumb "nop"] None)
    "iBSS" Thumb.iBSS_base [x00; x20; x00; x20]
  = (Raised (LibraryError (OtherError "ValueError")), [x00; x20; x00; x20]).
Proof.
  split.
  - destruct (verification_mismatch_iff "f" 0x84000002 [Thumb.thumb "bx lr"]
                [Thumb.thumb "nop"] None "iBSS" Thumb.iBSS_base
                [x00; x20; x00; x20] 2) as [Hreturns _]; [reflexivity |].
    destruct (Hreturns [Thumb.insn "movs" "r0, #0"]) as [_ Hraises];
      [reflexivity |].
    apply Hraises.
    intros [_ Hall]. vm_compute in Hall.
    inversion Hall as [| p ps Htext _]. discriminate Htext.
  - destruct (verification_mismatch_iff "f" 0x84000004 [Thumb.thumb "bx lr"]
                [Thumb.thumb "nop"] None "iBSS" Thumb.iBSS_base
                [x00; x20; x00; x20] 4) as [_ Hraises]; [reflexivity |].
    apply (Hraises (OtherError "ValueError")). reflexivity.
Defined.

Lemma disjoint_BlobPatches_commute_witness :
  apply (PatchSet "s" [BlobPatch 0x84000000 [xaa; xbb];
                       BlobPatch 0x84000002 [xcc]])
    "iBSS" Thumb.iBSS_base [x00; x20; x00; x20] =
  apply (PatchSet "s" [BlobPatch 0x84000002 [xcc];
                       BlobPatch 0x84000000 [xaa; xbb]])
    "iBSS" Thumb.iBSS_base [x00; x20; x00; x20].
Proof.
  apply (disjoint_BlobPatches_commute "s" 0x84000000 [xaa; xbb]
           0x84000002 [xcc] "iBSS" Thumb.iBSS_base [x00; x20; x00; x20] 0 2);
    try reflexivity; vm_compute; intuition discriminate.
Defined.

Lemma BlobPatch_is_idempotent_witness :
  apply (BlobPatch 0x84000003 [xaa; xbb]) "iBSS" Thumb.iBSS_base
    [x00; x20; x00; xaa; xbb]
  = (Returned, [x00; x20; x00; xaa; xbb]).
Proof.
  apply (BlobPatch_is_idempotent 0x84000003 [xaa; xbb] "iBSS"
           Thumb.iBSS_base [x00; x20; x00; x20] [x00; x20; x00; xaa; xbb]).
  reflexivity.
Defined.

Lemma reapplying_unverified_patch_witness :
  apply (InstructionPatch "f" 0x84000002 []
           [Thumb.thumb "bx lr"; Thumb.thumb "nop"] (Some 4))
    "iBSS" Thumb.iBSS_base [x00; x20; x70; x47; x00; xbf]
  = (Returned, [x00; x20; x70; x47; x00; xbf]).
Proof.
  apply (reapplying_unverified_patch "f" 0x84000002
           [Thumb.thumb "bx lr"; Thumb.thumb "nop"] (Some 4)
           "iBSS" Thumb.iBSS_base [x00; x20; x00; x20; x00; x20]
           [x00; x20; x70; x47; x00; xbf] 2 [[x70; x47]; [x00; xbf]]);
    try reflexivity; vm_compute; discriminate.
Defined.

(** A quick patch whose instruction the assembler rejects. *)
Lemma quick_patches_are_blind_witness :
  apply (patches_classmethods.quick 0x84000000 (inl (Thumb.thumb "bogus"))
           None)
    "iBSS" Thumb.iBSS_base [x00; x20]
  = (Raised (LibraryError (OtherError "assembler")), [x00; x20]) /\
  is_VerificationMismatch (LibraryError (OtherError "assembler")) = false.
Proof.
  split; [reflexivity |].
  destruct (quick_patches_are_blind 0x84000000 (inl (Thumb.thumb "bogus"))
              None Thumb.thumb "iBSS" Thumb.iBSS_base) as (_ & Hnever & _).
  apply (Hnever [x00; x20] _ [x00; x20]). reflexivity.
Defined.

(** Outside the buffer the same patch is not idempotent: every
    application appends the encoding once more. *)
Example reapplying_behind_the_end_grows :
  apply (InstructionPatch "f" 0x84000008 [] [Thumb.thumb "bx lr"] None)
    "iBSS" Thumb.iBSS_base [x00; x20]
  = (Returned, [x00; x20; x70; x47]) /\
  apply (InstructionPatch "f" 0x84000008 [] [Thumb.thumb "bx lr"] None)
    "iBSS" Thumb.iBSS_base [x00; x20; x70; x47]
  = (Returned, [x00; x20; x70; x47; x70; x47]).
Proof. split; reflexivity. Qed.

End EngineFacts.

(* ===================================================================== *)
(** ** Further properties of DmgPatchSet and its members *)
(* ===================================================================== *)

Module DmgMoreFacts.
Import dmg_patches spec PyFacts.


Section WithHost.
Context {OS IpswPatcherConfig : Type} `{Host OS}.


(** X13: When writing a file and reading it back gives what was written, and
    [chmod] leaves the contents of files alone, then after
    [DmgReplaceFileContentsPatch.apply] the file holds the new content,
    whether the call returned or a [chmod] made it raise. *)
Theorem replaced_file_holds_new_content
  file_path new_content new_permissions (config : IpswPatcherConfig)
  root os os' o :
  (forall p c s, read_bytes p (write_bytes p c s) = c) ->
  (forall perm f p s,
     read_bytes p (fst (apply_to_file OS perm f s)) = read_bytes p s) ->
  dmg_apply (DmgReplaceFileContentsPatch file_path new_content
               new_permissions) config root os = (os', o) ->
  read_bytes (joinpath root file_path) os' = new_content.
Proof.
  intros Hwrite Hchmod.
  assert (Hperms : forall perms f p s,
             read_bytes p (fst (apply_permissions OS perms f s))
             = read_bytes p s).
  { induction perms as [| perm rest IH]; intros f p s; [reflexivity |].
    cbn [apply_permissions].
    pose proof (Hchmod perm f p s) as Hstep.
    destruct (apply_to_file OS perm f s) as [s1 [| e]]; cbn [fst] in *.
    - rewrite IH. exact Hstep.
    - exact Hstep. }
  cbn [dmg_apply DmgReplaceFileContentsPatch].
  destruct new_permissions as [[| perm rest] |].
  - intros [= <- _]. apply Hwrite.
  - intros Happ.
    pose proof (Hperms (perm :: rest) (joinpath root file_path)
                  (joinpath root file_path)
                  (write_bytes (joinpath root file_path) new_content
                     (mkdir_parent (joinpath root file_path) os))) as Hkeep.
    rewrite Happ in Hkeep. cbn [fst] in Hkeep.
    rewrite Hkeep. apply Hwrite.
  - intros [= <- _]. apply Hwrite.
Qed.

End WithHost.

#[local] Existing Instance Machine.host.


Lemma replaced_file_holds_new_content_witness :
  read_bytes "/mnt/etc/flag"
    (fst (dmg_apply
            (DmgReplaceFileContentsPatch (IpswPatcherConfig := unit)
               "etc/flag" [x6f; x6b] (Some [Read; Write]))
            tt "/mnt" (Machine.boot false)))
  = [x6f; x6b].
Proof.
  apply (replaced_file_holds_new_content "etc/flag" [x6f; x6b]
           (Some [Read; Write]) tt "/mnt" (Machine.boot false) _
           (snd (dmg_apply
                   (DmgReplaceFileContentsPatch (IpswPatcherConfig := unit)
                      "etc/flag" [x6f; x6b] (Some [Read; Write]))
                   tt "/mnt" (Machine.boot false)))).
  - intros p c s. unfold read_bytes, write_bytes. cbn.
    unfold Machine.lookup, Machine.store. cbn.
    rewrite String.eqb_refl. reflexivity.
  - intros perm f p s. reflexivity.
  - reflexivity.
Defined.

End DmgMoreFacts.

(* ===================================================================== *)
(** ** DmgBinaryPatch *)
(* ===================================================================== *)

Module DmgBinaryPatchFacts.
Import patches_base dmg_binary_patch.

Section WithHost.
Context {OS IpswPatcherConfig : Type} `{dmg_patches.Host OS}
  `{BinaryHost OS IpswPatcherConfig}.

(** X14: the five places at which a [DmgBinaryPatch] raises, and the
    machine it then leaves: the binary is missing, or does not parse,
    and the machine is untouched; the inner patch raises, and the
    machine is as the inner patch left it; the binary cannot be written;
    or the binary has been written and its copy in the output directory
    cannot be.  In the last case the call raises after it has rewritten
    the binary in the mounted image: when a failed write leaves the
    other files alone, the binary holds the patched bytes. *)
Theorem binary_patch_failure_cases
  binary_path (inner_patch : Patch OS IpswPatcherConfig) config root os os' e :
  DmgBinaryPatch_apply binary_path inner_patch config root os
  = (os', Raised e) ->
  (path_exists (dmg_patches.joinpath root binary_path) os = false /\
   os' = os /\ e = LibraryError (OtherError "RuntimeError")) \/
  (exists l,
     virtual_base_of (dmg_patches.joinpath root binary_path) os = inl l /\
     os' = os /\ e = LibraryError l) \/
  (exists virtual_base data',
     virtual_base_of (dmg_patches.joinpath root binary_path) os
     = inr virtual_base /\
     patch_apply inner_patch config (dmg_patches.joinpath root binary_path)
       virtual_base
       (dmg_patches.read_bytes (dmg_patches.joinpath root binary_path) os) os
     = (os', (Raised e, data'))) \/
  (exists virtual_base os1 patched,
     virtual_base_of (dmg_patches.joinpath root binary_path) os
     = inr virtual_base /\
     patch_apply inner_patch config (dmg_patches.joinpath root binary_path)
       virtual_base
       (dmg_patches.read_bytes (dmg_patches.joinpath root binary_path) os) os
     = (os1, (Returned, patched)) /\
     (write_bytes_error (dmg_patches.joinpath root binary_path) patched os1
      = Some (os', e) \/
      (write_bytes_error (dmg_patches.joinpath root binary_path) patched os1
       = None /\
       write_bytes_error (saved_binary_path config binary_path) patched
         (dmg_patches.write_bytes (dmg_patches.joinpath root binary_path)
            patched os1)
       = Some (os', e) /\
       ((forall p c s,
           dmg_patches.read_bytes p (dmg_patches.write_bytes p c s) = c) ->
        (forall p q c s s' e',
           p <> q -> write_bytes_error q c s = Some (s', e') ->
           dmg_patches.read_bytes p s' = dmg_patches.read_bytes p s) ->
        dmg_patches.joinpath root binary_path
        <> saved_binary_path config binary_path ->
        dmg_patches.read_bytes (dmg_patches.joinpath root binary_path) os'
        = patched)))).
Proof.
  unfold DmgBinaryPatch_apply.
  destruct (path_exists (dmg_patches.joinpath root binary_path) os);
    cbn [negb].
  2:{ intros [= <- <-]. left. repeat split. }
  destruct (virtual_base_of (dmg_patches.joinpath root binary_path) os)
    as [l | virtual_base].
  { intros [= <- <-]. right. left. exists l. repeat split. }
  destruct (patch_apply inner_patch config _ virtual_base _ os)
    as [os1 [[| e1] patched]] eqn:Hinner.
  2:{ intros [= <- <-]. right. right. left.
      exists virtual_base, patched. split; [reflexivity | exact Hinner]. }
  intros Hwrites. right. right. right.
  exists virtual_base, os1, patched.
  split; [reflexivity |]. split; [exact Hinner |].
  unfold Path_write_bytes in Hwrites.
  destruct (write_bytes_error (dmg_patches.joinpath root binary_path)
              patched os1) as [[os2 e2] |].
  { injection Hwrites as <- <-. left. reflexivity. }
  destruct (write_bytes_error (saved_binary_path config binary_path) patched
              _) as [[os3 e3] |] eqn:Hcopy; [| discriminate].
  injection Hwrites as <- <-. right.
  split; [reflexivity |]. split; [reflexivity |].
  intros Hsame Hfailed Hne.
  rewrite (Hfailed _ _ _ _ _ _ Hne Hcopy). apply Hsame.
Qed.

(** X15: When files hold what was last written to them, a [DmgBinaryPatch]
    that returns has applied the inner patch to the bytes of the binary,
    with the virtual base of the binary itself, and has left the patched
    bytes both in the binary and in its copy in the output directory. *)
Theorem binary_patch_writes_both_copies
  binary_path (inner_patch : Patch OS IpswPatcherConfig) config root os os' :
  (forall p c s, dmg_patches.read_bytes p (dmg_patches.write_bytes p c s) = c)
  ->
  (forall p q c s,
     p <> q ->
     dmg_patches.read_bytes p (dmg_patches.write_bytes q c s)
     = dmg_patches.read_bytes p s) ->
  DmgBinaryPatch_apply binary_path inner_patch config root os
  = (os', Returned) ->
  exists virtual_base os1 patched,
    virtual_base_of (dmg_patches.joinpath root binary_path) os
    = inr virtual_base /\
    patch_apply inner_patch config (dmg_patches.joinpath root binary_path)
      virtual_base
      (dmg_patches.read_bytes (dmg_patches.joinpath root binary_path) os) os
    = (os1, (Returned, patched)) /\
    dmg_patches.read_bytes (dmg_patches.joinpath root binary_path) os'
    = patched /\
    dmg_patches.read_bytes (saved_binary_path config binary_path) os'
    = patched.
Proof.
  intros Hsame Hother. unfold DmgBinaryPatch_apply.
  destruct (path_exists (dmg_patches.joinpath root binary_path) os);
    cbn [negb]; [| discriminate].
  destruct (virtual_base_of (dmg_patches.joinpath root binary_path) os)
    as [l | virtual_base] eqn:Hbase; [discriminate |].
  destruct (patch_apply inner_patch config _ virtual_base _ os)
    as [os1 [[| e1] patched]] eqn:Hinner; [| discriminate].
  unfold Path_write_bytes.
  destruct (write_bytes_error (dmg_patches.joinpath root binary_path)
              patched os1) as [[os2 e2] |]; [discriminate |].
  destruct (write_bytes_error (saved_binary_path config binary_path) patched
              _) as [[os3 e3] |]; [discriminate |].
  intros [= <-].
  exists virtual_base, os1, patched.
  split; [reflexivity |]. split; [exact Hinner |]. split.
  - destruct (String.eqb_spec (dmg_patches.joinpath root binary_path)
                (saved_binary_path config binary_path)) as [Heq | Hne].
    + rewrite <- Heq. apply Hsame.
    + rewrite Hother by exact Hne. apply Hsame.
  - apply Hsame.
Qed.

End WithHost.

#[local] Existing Instance Machine.host.
#[local] Existing Instance MachineTools.binary_host.

Lemma machine_read_write_same p c s :
  dmg_patches.read_bytes p (dmg_patches.write_bytes p c s) = c.
Proof.
  cbn. unfold Machine.lookup, Machine.store. cbn.
  rewrite String.eqb_refl. reflexivity.
Qed.

Lemma machine_read_write_other p q c s :
  p <> q ->
  dmg_patches.read_bytes p (dmg_patches.write_bytes q c s)
  = dmg_patches.read_bytes p s.
Proof.
  intros Hne. cbn. unfold Machine.lookup, Machine.store. cbn.
  destruct (String.eqb_spec q p) as [Heq | _]; [congruence | reflexivity].
Qed.

(** The image holds [sbin/launchd] and the machine has no directory
    [patched_images]: the call raises [FileNotFoundError], and the
    binary in the image holds the patched bytes. *)
Lemma binary_patch_failure_cases_witness :
  snd (@DmgBinaryPatch_apply Machine.OS unit Machine.host
         MachineTools.binary_host_without_output_dir "sbin/launchd"
         (MachineTools.lift (patches.BlobPatch 0x1001 [xaa]))
         tt "/mnt"
         (MachineTools.with_files
            [("/mnt/sbin/launchd", [x00; x20; x70; x47])]))
  = Raised (LibraryError (OtherError "FileNotFoundError")) /\
  dmg_patches.read_bytes "/mnt/sbin/launchd"
    (fst (@DmgBinaryPatch_apply Machine.OS unit Machine.host
            MachineTools.binary_host_without_output_dir "sbin/launchd"
            (MachineTools.lift (patches.BlobPatch 0x1001 [xaa]))
            tt "/mnt"
            (MachineTools.with_files
               [("/mnt/sbin/launchd", [x00; x20; x70; x47])])))
  = [x00; xaa; x70; x47].
Proof.
  split; [reflexivity |].
  destruct (@binary_patch_failure_cases Machine.OS unit Machine.host
              MachineTools.binary_host_without_output_dir "sbin/launchd"
              (MachineTools.lift (patches.BlobPatch 0x1001 [xaa]))
              tt "/mnt"
              (MachineTools.with_files
                 [("/mnt/sbin/launchd", [x00; x20; x70; x47])])
              (fst (@DmgBinaryPatch_apply Machine.OS unit Machine.host
                      MachineTools.binary_host_without_output_dir
                      "sbin/launchd"
                      (MachineTools.lift (patches.BlobPatch 0x1001 [xaa]))
                      tt "/mnt"
                      (MachineTools.with_files
                         [("/mnt/sbin/launchd", [x00; x20; x70; x47])])))
              (LibraryError (OtherError "FileNotFoundError")) eq_refl)
    as [(Hmissing & _) | [(l & Hparse & _) |
        [(virtual_base & data' & _ & Hinner) |
         (virtual_base & os1 & patched & Hbase & Hinner &
          [Hbinary | (_ & _ & Hread)])]]].
  - discriminate Hmissing.
  - discriminate Hparse.
  - discriminate Hinner.
  - discriminate Hbinary.
  - vm_compute in Hbase. injection Hbase as <-.
    vm_compute in Hinner. injection Hinner as _ <-. apply Hread.
    + exact machine_read_write_same.
    + intros p q c s s' e' _. cbn.
      destruct (String.prefix "patched_images/" q); [| discriminate].
      intros [= <- _]. reflexivity.
    + discriminate.
Defined.

(** The image holds [sbin/launchd]; the inner patch writes one byte at
    the address 0x1001, which the binary maps to the offset 1. *)
Lemma binary_patch_writes_both_copies_witness :
  exists virtual_base os1 patched,
    virtual_base_of "/mnt/sbin/launchd"
      (MachineTools.with_files [("/mnt/sbin/launchd", [x00; x20; x70; x47])])
    = inr virtual_base /\
    patches_base.patch_apply
      (MachineTools.lift (patches.BlobPatch 0x1001 [xaa]))
      tt "/mnt/sbin/launchd" virtual_base [x00; x20; x70; x47]
      (MachineTools.with_files [("/mnt/sbin/launchd", [x00; x20; x70; x47])])
    = (os1, (Returned, patched)) /\
    patched = [x00; xaa; x70; x47].
Proof.
  destruct (binary_patch_writes_both_copies "sbin/launchd"
              (MachineTools.lift (patches.BlobPatch 0x1001 [xaa]))
              tt "/mnt"
              (MachineTools.with_files
                 [("/mnt/sbin/launchd", [x00; x20; x70; x47])])
              (fst (DmgBinaryPatch_apply "sbin/launchd"
                      (MachineTools.lift (patches.BlobPatch 0x1001 [xaa]))
                      tt "/mnt"
                      (MachineTools.with_files
                         [("/mnt/sbin/launchd", [x00; x20; x70; x47])]))))
    as (virtual_base & os1 & patched & Hbase & Hinner & Hfile & _).
  - exact machine_read_write_same.
  - exact machine_read_write_other.
  - reflexivity.
  - exists virtual_base, os1, patched.
    split; [exact Hbase |]. split; [exact Hinner |].
    rewrite <- Hfile. reflexivity.
Defined.

End DmgBinaryPatchFacts.

(* ===================================================================== *)
(** ** patcher.py *)
(* ===================================================================== *)

Module PatcherFacts.
Import patches_base patcher.

Lemma dict_get_set_same {V} (k : string) (v : V) d :
  dict_get k (dict_set k v d) = Some v.
Proof.
  unfold dict_get. induction d as [| [k' v'] d IH]; cbn.
  - rewrite String.eqb_refl. reflexivity.
  - destruct (String.eqb_spec k' k) as [-> | Hne]; cbn.
    + rewrite String.eqb_refl. reflexivity.
    + destruct (String.eqb_spec k' k); [contradiction | exact IH].
Qed.

Lemma dict_get_set_other {V} (k k' : string) (v : V) d :
  k <> k' -> dict_get k' (dict_set k v d) = dict_get k' d.
Proof.
  intros Hne. unfold dict_get.
  induction d as [| [k0 v0] d IH]; cbn.
  - destruct (String.eqb_spec k k'); [contradiction | reflexivity].
  - destruct (String.eqb_spec k0 k) as [-> | Hne0]; cbn.
    + destruct (String.eqb_spec k k'); [contradiction | reflexivity].
    + destruct (String.eqb_spec k0 k'); [reflexivity | exact IH].
Qed.

(** One more known function at the end of the list takes over its name
    and leaves the other names alone. *)
Lemma function_named_snoc known g n :
  function_named (known ++ [g]) n =
  if String.eqb (name g) n then inr g else function_named known n.
Proof.
  unfold function_named, names_to_functions.
  rewrite fold_left_app. cbn [fold_left].
  destruct (String.eqb_spec (name g) n) as [<- | Hne].
  - rewrite dict_get_set_same. reflexivity.
  - rewrite dict_get_set_other by exact Hne. reflexivity.
Qed.

(** X16: Looking a function up by name gives the last known function of that
    name, and raises [KeyError] exactly when no known function has the
    name; so does [FunctionRepository.function_with_name] on the known
    functions of a build. *)
Theorem function_named_is_the_last known n :
  (forall f,
     function_named known n = inr f <->
     exists before after,
       known = before ++ f :: after /\ name f = n /\
       forall g, In g after -> name g <> n) /\
  (function_named known n = inl (OtherError "KeyError") <->
   forall g, In g known -> name g <> n) /\
  (forall os_build f,
     function_with_name os_build n = inr f ->
     name f = n /\ In f (_BUILDS_TO_KNOWN_FUNCTIONS os_build)).
Proof.
  assert (Hlast : forall known f,
            function_named known n = inr f <->
            exists before after,
              known = before ++ f :: after /\ name f = n /\
              forall g, In g after -> name g <> n).
  { clear known. intros known. induction known as [| g known IH] using rev_ind;
      intros f.
    - split; [discriminate |].
      intros (before & after & Hk & _). destruct before; discriminate.
    - rewrite function_named_snoc.
      destruct (String.eqb_spec (name g) n) as [Hg | Hg].
      + split.
        * intros [= <-]. exists known, []. repeat split; [exact Hg |].
          intros g' [].
        * intros (before & after & Hk & Hf & Hafter).
          destruct after as [| a after _] using rev_ind.
          -- apply app_inj_tail in Hk as [_ ->]. reflexivity.
          -- rewrite app_comm_cons, app_assoc in Hk.
             apply app_inj_tail in Hk as [_ <-].
             exfalso. apply (Hafter g); [| exact Hg].
             apply in_or_app. right. left. reflexivity.
      + rewrite IH. split.
        * intros (before & after & -> & Hf & Hafter).
          exists before, (after ++ [g]).
          rewrite <- app_assoc. repeat split; [exact Hf |].
          intros g' Hin. apply in_app_or in Hin as [Hin | [<- | []]];
            [apply Hafter; exact Hin | exact Hg].
        * intros (before & after & Hk & Hf & Hafter).
          destruct after as [| a after _] using rev_ind.
          -- apply app_inj_tail in Hk as [_ ->]. contradiction.
          -- rewrite app_comm_cons, app_assoc in Hk.
             apply app_inj_tail in Hk as [-> <-].
             exists before, after. repeat split; [exact Hf |].
             intros g' Hin. apply Hafter. apply in_or_app. left. exact Hin. }
  assert (Hnone : forall known,
            function_named known n = inl (OtherError "KeyError") <->
            forall g, In g known -> name g <> n).
  { clear known. intros known. induction known as [| g known IH] using rev_ind.
    - split; [intros _ g [] | reflexivity].
    - rewrite function_named_snoc.
      destruct (String.eqb_spec (name g) n) as [Hg | Hg].
      + split; [discriminate |].
        intros Hall. exfalso. apply (Hall g); [| exact Hg].
        apply in_or_app. right. left. reflexivity.
      + rewrite IH. split.
        * intros Hall g' Hin.
          apply in_app_or in Hin as [Hin | [<- | []]];
            [apply Hall; exact Hin | exact Hg].
        * intros Hall g' Hin. apply Hall. apply in_or_app. left. exact Hin. }
  split; [apply Hlast |]. split; [apply Hnone |].
  intros os_build f Hf. unfold function_with_name in Hf.
  apply Hlast in Hf as (before & after & Hk & Hname & _).
  split; [exact Hname |]. rewrite Hk. apply in_or_app. right. left.
  reflexivity.
Qed.

(** Two known functions of one name: the later one is found. *)
Lemma function_named_is_the_last_witness :
  function_named [ {| name := "main"; address := 1 |};
                   {| name := "main"; address := 2 |} ] "main"
  = inr {| name := "main"; address := 2 |}.
Proof.
  destruct (function_named_is_the_last
              [ {| name := "main"; address := 1 |};
                {| name := "main"; address := 2 |} ] "main")
    as (Hlast & _).
  apply Hlast. exists [ {| name := "main"; address := 1 |} ], [].
  split; [reflexivity |]. split; [reflexivity |]. intros g [].
Defined.

Section WithHost.
Context {OS IpswPatcherConfig : Type} `{dmg_patches.Host OS}.

Lemma apply_all_keeps (I : OS -> Prop)
  (patches : list (Patch OS IpswPatcherConfig)) config input base :
  (forall p, In p patches ->
     forall data s, I s -> I (fst (patch_apply p config input base data s)))
  ->
  forall data os, I os -> I (fst (apply_all patches config input base data os)).
Proof.
  induction patches as [| p rest IH]; intros Hkeep data os HI.
  - exact HI.
  - cbn [apply_all].
    pose proof (Hkeep p (or_introl eq_refl) data os HI) as Hp.
    destruct (patch_apply p config input base data os)
      as [os1 [[| e] data1]]; cbn [fst] in *.
    + apply IH; [| exact Hp].
      intros q Hq. apply Hkeep. right. exact Hq.
    + exact Hp.
Qed.

(** X17: [apply_patches] writes the output file only when every patch has
    returned: with patches that leave the output file alone, a run that
    raises leaves it as it was, and a run that returns leaves in it the
    bytes of the input file as the patches, applied in order, changed
    them. *)
Theorem output_is_written_on_success_only
  (patches : list (Patch OS IpswPatcherConfig)) config base input output os :
  (forall p c s, dmg_patches.read_bytes p (dmg_patches.write_bytes p c s) = c)
  ->
  (forall p, In p patches ->
     forall data s,
       dmg_patches.read_bytes output
         (fst (patch_apply p config input base data s))
       = dmg_patches.read_bytes output s) ->
  match apply_patches config base input output patches os with
  | (os', Raised e) =>
      dmg_patches.read_bytes output os' = dmg_patches.read_bytes output os /\
      fst (snd (apply_all patches config input base
                  (dmg_patches.read_bytes input os) os)) = Raised e
  | (os', Returned) =>
      apply_all patches config input base
        (dmg_patches.read_bytes input os) os
      = (fst (apply_all patches config input base
                (dmg_patches.read_bytes input os) os),
         (Returned, dmg_patches.read_bytes output os'))
  end.
Proof.
  intros Hsame Hkeep. unfold apply_patches.
  pose proof (apply_all_keeps
                (fun s => dmg_patches.read_bytes output s
                          = dmg_patches.read_bytes output os)
                patches config input base
                (fun p Hp data s Hs =>
                   eq_trans (Hkeep p Hp data s) Hs)
                (dmg_patches.read_bytes input os) os eq_refl) as Hout.
  destruct (apply_all patches config input base
              (dmg_patches.read_bytes input os) os)
    as [os1 [[| e] patched]]; cbn [fst snd] in *.
  - rewrite Hsame. reflexivity.
  - split; [exact Hout | reflexivity].
Qed.

End WithHost.

#[local] Existing Instance Machine.host.

(** The second patch raises: the output file stays absent. *)
Lemma output_is_written_on_success_only_witness :
  dmg_patches.read_bytes "iBSS.patched"
    (fst (apply_patches tt 0x84000000 "iBSS" "iBSS.patched"
            [MachineTools.lift (patches.BlobPatch 0x84000000 [xaa]);
             MachineTools.lift (patches.BlobPatch 0x84000009 [xbb])]
            (MachineTools.with_files [("iBSS", [x00; x20])])))
  = [].
Proof.
  assert (Halone : forall p,
            In p [MachineTools.lift (patches.BlobPatch 0x84000000 [xaa]);
                  MachineTools.lift (patches.BlobPatch 0x84000009 [xbb])] ->
            forall data s,
              dmg_patches.read_bytes "iBSS.patched"
                (fst (patch_apply p tt "iBSS" 0x84000000 data s))
              = dmg_patches.read_bytes "iBSS.patched" s).
  { intros p [<- | [<- | []]] data s; reflexivity. }
  pose proof (output_is_written_on_success_only
                [MachineTools.lift (patches.BlobPatch 0x84000000 [xaa]);
                 MachineTools.lift (patches.BlobPatch 0x84000009 [xbb])]
                tt 0x84000000 "iBSS" "iBSS.patched"
                (MachineTools.with_files [("iBSS", [x00; x20])])
                DmgBinaryPatchFacts.machine_read_write_same
                Halone) as Hrun.
  destruct (apply_patches tt 0x84000000 "iBSS" "iBSS.patched" _ _)
    as [os' [| e]] eqn:Happly.
  - vm_compute in Happly. discriminate.
  - destruct Hrun as [Hout _]. cbn [fst]. rewrite Hout. reflexivity.
Defined.

Example known_functions_of_the_builds :
  function_with_name iPhone3_1_6_1_10B144 "main_ibss"
  = inr {| name := "main_ibss"; address := 0x840008C8 |} /\
  function_with_name iPhone3_1_4_0_8A293 "main_ibss"
  = inl (OtherError "KeyError").
Proof. split; reflexivity. Qed.

End PatcherFacts.

(* ===================================================================== *)
(** ** RamdiskBinaryPatch *)
(* ===================================================================== *)

Module RamdiskFacts.
Import ramdisk.

Section WithHost.
Context {OS : Type} `{dmg_patches.Host OS} `{RamdiskHost OS}.

(** X18: [RamdiskBinaryPatch.apply] works on a copy of the file at
    [decrypted_image_path] and never reads the buffer it is given: what
    it does to the machine, the commands it runs and how it ends are the
    same for every buffer, and when it returns the buffer is the patched
    image whatever it held before. *)
Theorem ramdisk_patch_ignores_buffer
  binary_path inner_patch path base data1 data2 (os : OS) :
  fst (apply binary_path inner_patch path base data1 os) =
  fst (apply binary_path inner_patch path base data2 os) /\
  fst (snd (apply binary_path inner_patch path base data1 os)) =
  fst (snd (apply binary_path inner_patch path base data2 os)) /\
  (fst (snd (apply binary_path inner_patch path base data1 os)) = Returned ->
   snd (snd (apply binary_path inner_patch path base data1 os)) =
   snd (snd (apply binary_path inner_patch path base data2 os))).
Proof.
  unfold apply.
  destruct (apply_body binary_path inner_patch path os)
    as [[os' evs] [e | new_bytes]]; cbn [fst snd].
  - repeat split. discriminate.
  - rewrite !DmgPatchSetFacts.setslice_whole. repeat split.
Qed.

(** X19: The context manager [_mount_dmg] of [patches.py]: when the attach
    fails, nothing else happens; when the attach succeeds and no mount
    point can be read from its output, the exception leaves the context
    manager with the body not run and the image not detached; once the
    mount point is read, the body runs and the detach follows however
    the body ended. *)
Theorem old_mount_dmg_cases {A} (path : Path) (body : Path -> M OS A)
  (os : OS) :
  (forall os1 e,
     run_and_capture_output_and_check (hdiutil_attach_plist path) os
     = (os1, inl e) ->
     _mount_dmg path body os
     = (os1, [dmg_patches.Ran (hdiutil_attach_plist path) (Raised e)], inl e))
  /\
  (forall os1 raw e,
     run_and_capture_output_and_check (hdiutil_attach_plist path) os
     = (os1, inr raw) ->
     mount_point_of_plist raw = inl e ->
     _mount_dmg path body os
     = (os1, [dmg_patches.Ran (hdiutil_attach_plist path) Returned], inl e))
  /\
  (forall os1 raw mounted_dmg_root os2 evs r os3 o_detach,
     run_and_capture_output_and_check (hdiutil_attach_plist path) os
     = (os1, inr raw) ->
     mount_point_of_plist raw = inr mounted_dmg_root ->
     body mounted_dmg_root os1 = (os2, evs, r) ->
     dmg_patches.run_and_check (dmg_patches.hdiutil_detach mounted_dmg_root)
       os2 = (os3, o_detach) ->
     _mount_dmg path body os
     = (os3,
        dmg_patches.Ran (hdiutil_attach_plist path) Returned
        :: evs ++ [dmg_patches.Ran
                     (dmg_patches.hdiutil_detach mounted_dmg_root) o_detach],
        match o_detach with
        | Raised e => inl e
        | Returned => r
        end)).
Proof.
  unfold _mount_dmg, dmg_patches.mbind, capture, pure,
    dmg_patches.try_finally, dmg_patches.run.
  split; [| split].
  - intros os1 e ->. reflexivity.
  - intros os1 raw e -> ->. reflexivity.
  - intros os1 raw mounted_dmg_root os2 evs r os3 o_detach -> -> -> ->.
    destruct o_detach; cbn [dmg_patches.of_outcome outcome_of];
      rewrite ?app_nil_r; reflexivity.
Qed.


End WithHost.

#[local] Existing Instance Machine.host.
#[local] Existing Instance MachineTools.ramdisk_host.

(** A run that returns, started with two different buffers. *)
Lemma ramdisk_patch_ignores_buffer_witness :
  snd (snd (apply "sbin/launchd" (patches.BlobPatch 0x1001 [xaa])
              "ramdisk.dmg.decrypted" 0 [x01]
              (MachineTools.with_files
                 [("ramdisk.dmg.decrypted", [x02]); ("hdiutil.out", [x01]);
                  ("/Volumes/ramdisk/sbin/launchd", [x00; x20])]))) =
  snd (snd (apply "sbin/launchd" (patches.BlobPatch 0x1001 [xaa])
              "ramdisk.dmg.decrypted" 0 [x09; x09]
              (MachineTools.with_files
                 [("ramdisk.dmg.decrypted", [x02]); ("hdiutil.out", [x01]);
                  ("/Volumes/ramdisk/sbin/launchd", [x00; x20])]))).
Proof.
  destruct (ramdisk_patch_ignores_buffer "sbin/launchd"
              (patches.BlobPatch 0x1001 [xaa]) "ramdisk.dmg.decrypted" 0
              [x01] [x09; x09]
              (MachineTools.with_files
                 [("ramdisk.dmg.decrypted", [x02]); ("hdiutil.out", [x01]);
                  ("/Volumes/ramdisk/sbin/launchd", [x00; x20])]))
    as (_ & _ & Hreturned).
  apply Hreturned. reflexivity.
Defined.

(** The attach succeeds, and its output names no mount point. *)
Lemma old_mount_dmg_cases_witness :
  _mount_dmg (A := unit) "ramdisk.dmg"
    (fun _ os => (os, [], inr tt)) (MachineTools.with_files [])
  = (MachineTools.with_files [],
     [dmg_patches.Ran (hdiutil_attach_plist "ramdisk.dmg") Returned],
     inl (LibraryError (OtherError "KeyError"))).
Proof.
  destruct (old_mount_dmg_cases (A := unit) "ramdisk.dmg"
              (fun _ os => (os, [], inr tt)) (MachineTools.with_files []))
    as (_ & Hunread & _).
  apply (Hunread (MachineTools.with_files []) []); reflexivity.
Defined.


(** A whole run on the machine of the examples: the image is copied,
    resized and attached, the binary is found missing, the image is
    detached and the buffer is as it was. *)
Example ramdisk_patch_with_missing_binary :
  snd (apply "sbin/launchd" (patches.BlobPatch 0x1001 [xaa])
         "ramdisk.dmg.decrypted" 0 [x01]
         (MachineTools.with_files
            [("ramdisk.dmg.decrypted", [x02]); ("hdiutil.out", [x01])]))
  = (Raised (LibraryError (OtherError "RuntimeError")), [x01]) /\
  map dmg_patches.event_outcome
    (snd (fst (apply "sbin/launchd" (patches.BlobPatch 0x1001 [xaa])
                 "ramdisk.dmg.decrypted" 0 [x01]
                 (MachineTools.with_files
                    [("ramdisk.dmg.decrypted", [x02]);
                     ("hdiutil.out", [x01])]))))
  = [Returned; Returned; Returned].
Proof. split; reflexivity. Qed.

End RamdiskFacts.
